(** * SharpEdge-Quant: the C++ backtesting core

    A shallow embedding of [backtester.cpp], [performance_metrics.cpp] and
    [trade_simulator.cpp], and the properties of the execution loop and of
    the metric calculations that the specification states.

    Conventions of the embedding.
    - [double] is an abstract number type [D] with the operations the
      sources use (class [Double]).  Everything that does not depend on the
      arithmetic is proved for every instance.  Two instances are given:
      IEEE binary64 ([PrimFloat.float]), the arithmetic of the program, on
      which the scenarios are evaluated bit for bit, and exact rationals
      [Q] (the "real" of the specification's data model), on which the
      numeric properties are proved up to [Qeq].  A statement that holds on
      [Q] and fails under rounding is refuted on binary64
      ([Binary64Facts]) and restated so that rounding keeps it.
    - [int] and [size_t] are [Z].  A [static_cast] from [double] truncates
      toward zero; a quotient outside the target's range is undefined
      behaviour in the sources and has no counterpart here.  The one
      [size_t] addition of the sources wraps modulo 2^64, as written out in
      [size_add].
    - [std::string] is [string]; [std::vector] is [list], [push_back]
      appends at the end, [v[i]] is [nth i v] (every index the sources use is
      in range, see [latency_index_in_range]).
    - The object's fields keep their names; a member function is a function
      from the object to the object. *)

From Stdlib Require Import String ZArith QArith Qround List Bool Lia Lqa.
From Stdlib Require PrimFloat FloatOps.
Import ListNotations.

Set Implicit Arguments.

(** ** The number interface *)

Class Double (D : Type) : Type := {
  (** [int] or [size_t] to [double]; also the integer-valued literals
      ([0.0], [1.0], [10], [100.0], [252], [10000.0]) *)
  of_int : Z -> D;
  dadd : D -> D -> D;
  dsub : D -> D -> D;
  dmul : D -> D -> D;
  ddiv : D -> D -> D;
  (** [a < b], [a <= b], [a == b] *)
  dlt : D -> D -> bool;
  dle : D -> D -> bool;
  deq : D -> D -> bool;
  (** [static_cast<int>(x)], [static_cast<size_t>(x)] *)
  trunc : D -> Z
}.

Declare Scope double_scope.
Delimit Scope double_scope with D.
Infix "+" := dadd : double_scope.
Infix "-" := dsub : double_scope.
Infix "*" := dmul : double_scope.
Infix "/" := ddiv : double_scope.
Infix "<?" := dlt : double_scope.
Infix "<=?" := dle : double_scope.
Infix "=?" := deq : double_scope.

(** [std::max(a, b)] is [(a < b) ? b : a]. *)
Definition std_max {D} `{Double D} (a b : D) : D :=
  if (a <? b)%D then b else a.

(** [*std::max_element(first, last)]: the first largest element under [<].
    On an empty range the source dereferences [end()]; the embedding gives
    [0.0] there, and [getResults] never reaches it
    (see [drawdowns_length_runBacktest]). *)
Definition max_element {D} `{Double D} (v : list D) : D :=
  match v with
  | [] => of_int 0
  | x :: r => fold_left std_max r x
  end.

(** ** backtester.h: the data *)

Record Signal (D : Type) : Type := mkSignal {
  timestamp : string;
  price : D;
  signal : Z  (* 0 = no position/sell, 1 = buy *)
}.

Record EquityPoint (D : Type) : Type := mkEquityPoint {
  eq_timestamp : string;
  equity : D
}.

Record Trade (D : Type) : Type := mkTrade {
  tr_timestamp : string;
  action : string;  (* "BUY" or "SELL" *)
  shares : Z;
  tr_price : D;
  value : D
}.

Record BacktestResults (D : Type) : Type := mkBacktestResults {
  finalEquity : D;
  finalReturn : D;
  maxDrawdown : D;
  sharpeRatio : D;
  totalTrades : Z
}.

Record Backtester (D : Type) : Type := mkBacktester {
  m_initialCapital : D;
  m_cash : D;
  m_position : Z;
  m_slippage : D;
  m_latency : D;
  m_signals : list (Signal D);
  m_equity : list (EquityPoint D);
  m_trades : list (Trade D);
  m_drawdowns : list D;
  m_returns : list D
}.

(** The local variables of the loop of [runBacktest], next to the object. *)
Record Loop (D : Type) : Type := mkLoop {
  self : Backtester D;
  lastEquity : D;
  highWaterMark : D;
  currentSignal : Z
}.

(** [a + b] on [size_t]. *)
Definition size_add (a b : Z) : Z := ((a + b) mod 2 ^ 64)%Z.

Section Engine.
Context {D : Type} {dbl : Double D}.

Local Notation "0.0" := (of_int 0%Z).
Local Notation "1.0" := (of_int 1%Z).
Local Notation "100.0" := (of_int 100%Z).

(** *** Assignments to the fields *)

Definition set_cash (c : D) (b : Backtester D) : Backtester D :=
  mkBacktester (m_initialCapital b) c (m_position b) (m_slippage b)
    (m_latency b) (m_signals b) (m_equity b) (m_trades b) (m_drawdowns b)
    (m_returns b).

Definition set_position (p : Z) (b : Backtester D) : Backtester D :=
  mkBacktester (m_initialCapital b) (m_cash b) p (m_slippage b)
    (m_latency b) (m_signals b) (m_equity b) (m_trades b) (m_drawdowns b)
    (m_returns b).

Definition set_signals (v : list (Signal D)) (b : Backtester D) : Backtester D :=
  mkBacktester (m_initialCapital b) (m_cash b) (m_position b) (m_slippage b)
    (m_latency b) v (m_equity b) (m_trades b) (m_drawdowns b) (m_returns b).

Definition set_equity (v : list (EquityPoint D)) (b : Backtester D) : Backtester D :=
  mkBacktester (m_initialCapital b) (m_cash b) (m_position b) (m_slippage b)
    (m_latency b) (m_signals b) v (m_trades b) (m_drawdowns b) (m_returns b).

Definition set_trades (v : list (Trade D)) (b : Backtester D) : Backtester D :=
  mkBacktester (m_initialCapital b) (m_cash b) (m_position b) (m_slippage b)
    (m_latency b) (m_signals b) (m_equity b) v (m_drawdowns b) (m_returns b).

Definition set_drawdowns (v : list D) (b : Backtester D) : Backtester D :=
  mkBacktester (m_initialCapital b) (m_cash b) (m_position b) (m_slippage b)
    (m_latency b) (m_signals b) (m_equity b) (m_trades b) v (m_returns b).

Definition set_returns (v : list D) (b : Backtester D) : Backtester D :=
  mkBacktester (m_initialCapital b) (m_cash b) (m_position b) (m_slippage b)
    (m_latency b) (m_signals b) (m_equity b) (m_trades b) (m_drawdowns b) v.

(** *** Constructors *)

(** [Backtester(initialCapital, slippage, latency)] *)
Definition Backtester_new (initialCapital slippage latency : D) : Backtester D :=
  mkBacktester initialCapital initialCapital 0 slippage latency [] [] [] [] [].

(** *** loadSignalsFromCSV

    Opening and parsing the file is outside the embedding: [file] is
    [None] when the file cannot be opened and [Some rows] with the rows
    that parsed otherwise.  The result is the object and the returned
    [bool]. *)
Definition loadSignalsFromCSV (file : option (list (Signal D)))
    (b : Backtester D) : Backtester D * bool :=
  match file with
  | None => (b, false)
  | Some rows =>
      let b := set_signals [] b in
      let b := set_equity [] b in
      let b := set_drawdowns [] b in
      let b := set_cash (m_initialCapital b) b in
      let b := set_position 0 b in
      let b := set_signals (m_signals b ++ rows) b in
      (b, negb (match m_signals b with [] => true | _ => false end))
  end.

(** *** runBacktest *)

Definition noSignal : Signal D := mkSignal EmptyString 0.0 0.

(** The price a transition at record [i] is executed at, before slippage
    (lines 91-97). *)
Definition latencyPrice (b : Backtester D) (i : nat) : D :=
  let sg := nth i (m_signals b) noSignal in
  if (0.0 <? m_latency b)%D then
    let latencySteps := trunc (m_latency b * of_int 10)%D in
    let nextIdx :=
      Z.min (size_add (Z.of_nat i) latencySteps)
            (Z.of_nat (length (m_signals b)) - 1) in
    price (nth (Z.to_nat nextIdx) (m_signals b) noSignal)
  else price sg.

(** The slippage-adjusted execution price (lines 99-104). *)
Definition executionPrice (b : Backtester D) (i : nat) : D :=
  let sg := nth i (m_signals b) noSignal in
  if (sg.(signal) =? 1)%Z
  then (latencyPrice b i * (1.0 + m_slippage b))%D
  else (latencyPrice b i * (1.0 - m_slippage b))%D.

(** "Execute trade" (lines 106-137). *)
Definition executeTrade (b : Backtester D) (i : nat) : Backtester D :=
  let sg := nth i (m_signals b) noSignal in
  let effectivePrice := executionPrice b i in
  if ((sg.(signal) =? 1) && (m_position b =? 0))%Z then
    let shares := trunc (m_cash b / effectivePrice)%D in
    if (0 <? shares)%Z then
      let b := set_position shares b in
      let b := set_cash (m_cash b - of_int shares * effectivePrice)%D b in
      set_trades
        (m_trades b ++
           [mkTrade sg.(timestamp) "BUY" shares effectivePrice
              (of_int shares * effectivePrice)%D]) b
    else b
  else if ((sg.(signal) =? 0) && (0 <? m_position b))%Z then
    let proceeds := (of_int (m_position b) * effectivePrice)%D in
    let b :=
      set_trades
        (m_trades b ++
           [mkTrade sg.(timestamp) "SELL" (m_position b) effectivePrice
              proceeds]) b in
    let b := set_cash (m_cash b + proceeds)%D b in
    set_position 0 b
  else b.

(** One iteration of the loop (lines 85-160). *)
Definition loopBody (st : Loop D) (i : nat) : Loop D :=
  let sg := nth i (m_signals (self st)) noSignal in
  (* Check if signal has changed *)
  let (b, currentSignal) :=
    if negb (sg.(signal) =? currentSignal st)%Z
    then (executeTrade (self st) i, sg.(signal))
    else (self st, currentSignal st) in
  (* Calculate equity at this point *)
  let equity := m_cash b in
  let equity :=
    if (0 <? m_position b)%Z
    then (equity + of_int (m_position b) * sg.(price))%D
    else equity in
  let b := set_equity (m_equity b ++ [mkEquityPoint sg.(timestamp) equity]) b in
  (* Calculate drawdown *)
  let highWaterMark := std_max (highWaterMark st) equity in
  let drawdown := ((highWaterMark - equity) / highWaterMark * 100.0)%D in
  let b := set_drawdowns (m_drawdowns b ++ [drawdown]) b in
  (* Calculate returns *)
  let dailyReturn := (equity / lastEquity st - 1.0)%D in
  let b := set_returns (m_returns b ++ [dailyReturn]) b in
  mkLoop b equity highWaterMark currentSignal.

(** The object and the locals on entry to the loop (lines 73-82). *)
Definition loopInit (b : Backtester D) : Loop D :=
  let b := set_cash (m_initialCapital b) b in
  let b := set_position 0 b in
  let b := set_equity [] b in
  let b := set_trades [] b in
  let b := set_drawdowns [] b in
  mkLoop b (m_initialCapital b) (m_initialCapital b) 0.

(** The state after the first [k] iterations. *)
Definition loopAfter (b : Backtester D) (k : nat) : Loop D :=
  fold_left loopBody (seq 0 k) (loopInit b).

Definition runBacktest (b : Backtester D) : Backtester D :=
  match m_signals b with
  | [] => b
  | _ :: _ => self (loopAfter b (length (m_signals b)))
  end.

(** *** getResults *)

Definition noEquityPoint : EquityPoint D := mkEquityPoint EmptyString 0.0.

(** A default-constructed [BacktestResults]. *)
Definition BacktestResults_new : BacktestResults D :=
  mkBacktestResults 0.0 0.0 0.0 0.0 0.

Section Results.
(** [std::sqrt] *)
Variable dsqrt : D -> D.

Definition getResults (b : Backtester D) : BacktestResults D :=
  match m_equity b with
  | [] => BacktestResults_new
  | _ :: _ =>
      (* Calculate final return *)
      let finalEquity := equity (last (m_equity b) noEquityPoint) in
      let finalReturn :=
        ((finalEquity / m_initialCapital b - 1.0) * 100.0)%D in
      (* Calculate max drawdown *)
      let maxDrawdown := max_element (m_drawdowns b) in
      (* Calculate Sharpe ratio *)
      let (totalReturn, totalRisk) :=
        fold_left
          (fun (acc : D * D) r => (fst acc + r, snd acc + r * r)%D)
          (m_returns b) (0.0, 0.0) in
      let size := of_int (Z.of_nat (length (m_returns b))) in
      let meanReturn := (totalReturn / size)%D in
      let stdDev := dsqrt (totalRisk / size - meanReturn * meanReturn)%D in
      let sharpeRatio :=
        if (0.0 <? stdDev)%D
        then ((meanReturn * of_int 252) / (stdDev * dsqrt (of_int 252)))%D
        else 0.0 in
      mkBacktestResults finalEquity finalReturn maxDrawdown sharpeRatio
        (Z.of_nat (length (m_trades b)))
  end.
End Results.

End Engine.

(** ** performance_metrics.cpp *)

Record PerformanceStats (D : Type) : Type := mkPerformanceStats {
  ps_totalReturn : D;       (* totalReturn *)
  ps_annualizedReturn : D;  (* annualizedReturn *)
  ps_maxDrawdown : D;       (* maxDrawdown *)
  ps_sharpeRatio : D;       (* sharpeRatio *)
  ps_sortinoRatio : D       (* sortinoRatio *)
}.

Section PerformanceMetrics.
Context {D : Type} {dbl : Double D}.
(** [std::sqrt] *)
Variable dsqrt : D -> D.

Local Notation "0.0" := (of_int 0%Z).
Local Notation "1.0" := (of_int 1%Z).
Local Notation "100.0" := (of_int 100%Z).
Local Notation "252.0" := (of_int 252%Z).

Definition calculateTotalReturn (equity : list (EquityPoint D))
    (initialCapital : D) : D :=
  match equity with
  | [] => 0.0
  | _ :: _ =>
      let 'mkEquityPoint _ finalEquity := last equity noEquityPoint in
      ((finalEquity / initialCapital - 1.0) * 100.0)%D
  end.

(** One iteration of the loop of [calculateMaxDrawdown], on the pair
    [(maxDrawdown, peak)]. *)
Definition maxDrawdownStep (acc : D * D) (value : D) : D * D :=
  let (maxDrawdown, peak) := acc in
  let peak := if (peak <? value)%D then value else peak in
  let drawdown := ((peak - value) / peak * 100.0)%D in
  (std_max maxDrawdown drawdown, peak).

Definition calculateMaxDrawdown (equityValues : list D) : D :=
  match equityValues with
  | [] => 0.0
  | v0 :: _ => fst (fold_left maxDrawdownStep equityValues (0.0, v0))
  end.

(** [std::accumulate(first, last, 0.0)] *)
Definition accumulate (v : list D) : D := fold_left dadd v 0.0.

Definition size_of (v : list D) : D := of_int (Z.of_nat (length v)).

(** The population standard deviation [calculateSharpeRatio] computes
    (lines 41-49). *)
Definition stdDevOf (returns : list D) : D :=
  let sum := accumulate returns in
  let mean := (sum / size_of returns)%D in
  let squaredSum :=
    fold_left (fun acc ret => (acc + (ret - mean) * (ret - mean))%D)
      returns 0.0 in
  dsqrt (squaredSum / size_of returns)%D.

Definition calculateSharpeRatio (returns : list D) (riskFreeRate : D) : D :=
  match returns with
  | [] => 0.0
  | _ :: _ =>
      let sum := accumulate returns in
      let mean := (sum / size_of returns)%D in
      let stdDev := stdDevOf returns in
      (* Avoid division by zero *)
      if (stdDev =? 0.0)%D then 0.0
      else
        let dailySharpe := ((mean - riskFreeRate / 252.0) / stdDev)%D in
        (dailySharpe * dsqrt 252.0)%D
  end.

(** The loop over the negative returns (lines 73-81), on the pair
    [(squaredDownsideSum, downsideCount)]. *)
Definition downsideStep (acc : D * Z) (ret : D) : D * Z :=
  if (ret <? 0.0)%D
  then ((fst acc + ret * ret)%D, (snd acc + 1)%Z)
  else acc.

Definition calculateSortinoRatio (returns : list D) (riskFreeRate : D) : D :=
  match returns with
  | [] => 0.0
  | _ :: _ =>
      let sum := accumulate returns in
      let mean := (sum / size_of returns)%D in
      let (squaredDownsideSum, downsideCount) :=
        fold_left downsideStep returns (0.0, 0%Z) in
      (* Avoid division by zero *)
      if (downsideCount =? 0)%Z then 0.0
      else
        let downsideDeviation :=
          dsqrt (squaredDownsideSum / of_int downsideCount)%D in
        let dailySortino :=
          ((mean - riskFreeRate / 252.0) / downsideDeviation)%D in
        (dailySortino * dsqrt 252.0)%D
  end.

(** [std::pow] *)
Variable dpow : D -> D -> D.

(** A default-constructed [PerformanceStats]. *)
Definition PerformanceStats_new : PerformanceStats D :=
  mkPerformanceStats 0.0 0.0 0.0 0.0 0.0.

Definition calculateAllMetrics (equity : list (EquityPoint D))
    (returns : list D) (initialCapital riskFreeRate : D) : PerformanceStats D :=
  match equity, returns with
  | [], _ | _, [] => PerformanceStats_new
  | _ :: _, _ :: _ =>
      (* Extract equity values for calculations *)
      let equityValues := map (fun point => let 'mkEquityPoint _ e := point in e) equity in
      (* Calculate metrics *)
      let totalReturn := calculateTotalReturn equity initialCapital in
      let maxDrawdown := calculateMaxDrawdown equityValues in
      let sharpeRatio := calculateSharpeRatio returns riskFreeRate in
      let sortinoRatio := calculateSortinoRatio returns riskFreeRate in
      (* Calculate annualized return *)
      let years := (size_of returns / 252.0)%D in
      let annualizedReturn :=
        if (0.0 <? years)%D
        then ((dpow (1.0 + totalReturn / 100.0) (1.0 / years) - 1.0) * 100.0)%D
        else 0.0 in
      mkPerformanceStats totalReturn annualizedReturn maxDrawdown sharpeRatio
        sortinoRatio
  end.

End PerformanceMetrics.

(** ** trade_simulator.cpp *)

Record TradeSimulator (D : Type) : Type := mkTradeSimulator {
  ts_slippage : D;  (* m_slippage *)
  ts_latency : D    (* m_latency *)
}.

(** The local variables of the loop of [simulateTrades]. *)
Record SimLoop (D : Type) : Type := mkSimLoop {
  trades : list (Trade D);
  currentPosition : Z;
  lastSignal : Z
}.

Section Simulator.
Context {D : Type} {dbl : Double D}.
Variable this : TradeSimulator D.

Local Notation "0.0" := (of_int 0%Z).
Local Notation "1.0" := (of_int 1%Z).

Definition calculateBuyPrice (basePrice : D) : D :=
  (basePrice * (1.0 + ts_slippage this))%D.

Definition calculateSellPrice (basePrice : D) : D :=
  (basePrice * (1.0 - ts_slippage this))%D.

Definition applyLatency (original : Signal D) (signals : list (Signal D))
    (currentIndex : nat) : Signal D :=
  if (ts_latency this <=? 0.0)%D
     || match signals with [] => true | _ => false end
     || (length signals - 1 <=? currentIndex)%nat
  then original
  else
    let latencySteps := trunc (ts_latency this * of_int 10)%D in
    let delayedIndex :=
      Z.min (size_add (Z.of_nat currentIndex) latencySteps)
            (Z.of_nat (length signals) - 1) in
    mkSignal original.(timestamp)
      (nth (Z.to_nat delayedIndex) signals noSignal).(price)
      original.(signal).

(** One iteration of the loop of [simulateTrades] (lines 47-84). *)
Definition simulateStep (signals : list (Signal D)) (st : SimLoop D)
    (i : nat) : SimLoop D :=
  let effectiveSignal := applyLatency (nth i signals noSignal) signals i in
  if negb (effectiveSignal.(signal) =? lastSignal st)%Z then
    if ((effectiveSignal.(signal) =? 1) && (currentPosition st =? 0))%Z then
      let tradePrice := calculateBuyPrice effectiveSignal.(price) in
      let shares := trunc (of_int 10000 / tradePrice)%D in
      mkSimLoop
        (trades st ++
           [mkTrade effectiveSignal.(timestamp) "BUY" shares tradePrice
              (of_int shares * tradePrice)%D])
        shares effectiveSignal.(signal)
    else if ((effectiveSignal.(signal) =? 0) && (0 <? currentPosition st))%Z then
      let tradePrice := calculateSellPrice effectiveSignal.(price) in
      mkSimLoop
        (trades st ++
           [mkTrade effectiveSignal.(timestamp) "SELL" (currentPosition st)
              tradePrice (of_int (currentPosition st) * tradePrice)%D])
        0 effectiveSignal.(signal)
    else mkSimLoop (trades st) (currentPosition st) effectiveSignal.(signal)
  else st.

Definition simulateTrades (signals : list (Signal D)) : list (Trade D) :=
  match signals with
  | [] => []
  | _ :: _ =>
      trades (fold_left (simulateStep signals) (seq 0 (length signals))
                (mkSimLoop [] 0 0))
  end.

End Simulator.

(** ** binding.cpp *)

(** [run_backtest]: [None] is the [std::runtime_error] thrown when the load
    fails; the dictionary built from the results is the [BacktestResults]
    itself, field by field. *)
Definition run_backtest {D} `{Double D} (dsqrt : D -> D)
    (signalsFile : option (list (Signal D)))
    (initialCapital slippage latency : D) : option (BacktestResults D) :=
  let backtester := Backtester_new initialCapital slippage latency in
  let (backtester, ok) := loadSignalsFromCSV signalsFile backtester in
  if negb ok then None
  else Some (getResults dsqrt (runBacktest backtester)).

(** ** The two number types *)

(** *** Exact rationals *)

(** [static_cast<int>] on a rational: the quotient rounded toward zero. *)
Definition Qtrunc (x : Q) : Z := Z.quot (Qnum x) (Zpos (Qden x)).

Definition Qlt_bool (x y : Q) : bool := negb (Qle_bool y x).

#[global] Instance Q_Double : Double Q := {
  of_int := inject_Z;
  dadd := Qplus;
  dsub := Qminus;
  dmul := Qmult;
  ddiv := Qdiv;
  dlt := Qlt_bool;
  dle := Qle_bool;
  deq := Qeq_bool;
  trunc := Qtrunc
}.

(** *** IEEE binary64 *)

Module Binary64.
Import PrimFloat FloatOps SpecFloat.

(** An [int] as a [double]; exact below 2^53. *)
Definition of_Z (z : Z) : float :=
  match z with
  | Z0 => zero
  | Zpos p => SF2Prim (S754_finite false p 0)
  | Zneg p => SF2Prim (S754_finite true p 0)
  end.

(** The integer part, toward zero.  A NaN or an infinity has none (the
    cast is undefined in the source); [0] stands in. *)
Definition to_Z (f : float) : Z :=
  match Prim2SF f with
  | S754_finite s m e =>
      let v := if (0 <=? e)%Z
               then (Zpos m * 2 ^ e)%Z
               else Z.quot (Zpos m) (2 ^ (- e)) in
      if s then (- v)%Z else v
  | _ => 0%Z
  end.

(** The inputs of the scenarios, as [double]s. *)
Definition scenario64 : list (Signal float) :=
  [mkSignal "t0" 100 0; mkSignal "t1" 100 1; mkSignal "t2" 110 1;
   mkSignal "t3" 110 0; mkSignal "t4" 90 0]%float.

Definition oneBuy64 : list (Signal float) := [mkSignal "t0" 100%float 1].

Definition heldBuySignal64 (n : nat) : list (Signal float) :=
  repeat (mkSignal "t" 100%float 1) n.

(** The [double]s nearest to 0.1, to 15294.72 and to 68.28. *)
Definition tenth : float := (1 / 10)%float.

Definition overdrawnCapital64 : float := (of_Z 1529472 / 100)%float.

(** A buy and a sell at the price 68.28. *)
Definition overdrawn64 : list (Signal float) :=
  [mkSignal "t0" (of_Z 6828 / 100) 1; mkSignal "t1" (of_Z 6828 / 100) 0]%float.

#[global] Instance float_Double : Double float := {
  of_int := of_Z;
  dadd := add;
  dsub := sub;
  dmul := mul;
  ddiv := div;
  dlt := ltb;
  dle := leb;
  deq := eqb;
  trunc := to_Z
}.
End Binary64.

(** ** Inputs of the scenarios *)

(** Prices [100,100,110,110,90] under the signals [0,1,1,0,0]. *)
Definition scenario : list (Signal Q) :=
  [mkSignal "t0" 100 0; mkSignal "t1" 100 1; mkSignal "t2" 110 1;
   mkSignal "t3" 110 0; mkSignal "t4" 90 0].

(** One record: a buy signal at price 100. *)
Definition oneBuy : list (Signal Q) := [mkSignal "t0" 100 1].

(** Buy at 100, sell at 200, buy again at 100. *)
Definition roundTrip : list (Signal Q) :=
  [mkSignal "t0" 100 1; mkSignal "t1" 200 0; mkSignal "t2" 100 1].

(** [n] records at the constant price 100, all under a buy signal. *)
Definition heldBuySignal (n : nat) : list (Signal Q) :=
  repeat (mkSignal "t" 100 1) n.

(** A buy at 100 held through a rise to 110 and a fall to 90. *)
Definition riseAndFall : list (Signal Q) :=
  [mkSignal "t0" 100 1; mkSignal "t1" 110 1; mkSignal "t2" 90 1].

(** ** Vocabulary of the statements *)

Section Vocabulary.
Context {D : Type} {dbl : Double D}.

(** The object after the transition check of iteration [i]. *)
Definition afterTransition (st : Loop D) (i : nat) : Backtester D :=
  if negb (signal (nth i (m_signals (self st)) noSignal) =? currentSignal st)%Z
  then executeTrade (self st) i
  else self st.

(** The equity iteration [i] records (lines 143-146). *)
Definition markToMarket (b : Backtester D) (i : nat) : D :=
  if (0 <? m_position b)%Z
  then (m_cash b + of_int (m_position b) * price (nth i (m_signals b) noSignal))%D
  else m_cash b.

(** ["BUY"] or ["SELL"]. *)
Definition side (buy : bool) : string := if buy then "BUY" else "SELL".

(** The sides of a trade log alternate, starting with [side buy]. *)
Fixpoint alternates (buy : bool) (log : list (Trade D)) : Prop :=
  match log with
  | [] => True
  | t :: rest => action t = side buy /\ alternates (negb buy) rest
  end.

(** The side the next trade of an alternating log must have. *)
Definition nextSide (buy : bool) (log : list (Trade D)) : bool :=
  if Nat.even (length log) then buy else negb buy.

(** The high-water mark and the drawdown the loop derives from one more
    equity value (lines 152-154), on the pair of the mark and the
    drawdowns pushed so far. *)
Definition drawdownStep (acc : D * list D) (equity : D) : D * list D :=
  let highWaterMark := std_max (fst acc) equity in
  (highWaterMark,
   snd acc ++ [((highWaterMark - equity) / highWaterMark * of_int 100)%D]).

(** The object a host gets from the constructor and a successful open of a
    file with the rows [rows]. *)
Definition loaded (initialCapital slippage latency : D)
    (rows : list (Signal D)) : Backtester D :=
  fst (loadSignalsFromCSV (Some rows)
         (Backtester_new initialCapital slippage latency)).

(** The log is alternating and the position is long exactly when the log
    has an odd number of trades. *)
Definition log_ok (b : Backtester D) : Prop :=
  alternates true (m_trades b) /\
  (0 <= m_position b)%Z /\
  Nat.even (length (m_trades b)) = (m_position b =? 0)%Z.

(** Two objects agree on every field except [m_returns]. *)
Definition agree (b b' : Backtester D) : Prop :=
  set_returns [] b = set_returns [] b'.

Definition agreeLoop (st st' : Loop D) : Prop :=
  agree (self st) (self st') /\
  lastEquity st = lastEquity st' /\
  highWaterMark st = highWaterMark st' /\
  currentSignal st = currentSignal st'.

(** The helper sizes every buy from the constant 10000. *)
Definition fixedNotional (t : Trade D) : Prop :=
  action t = "BUY"%string -> shares t = trunc (of_int 10000 / tr_price t)%D.

End Vocabulary.

(** What the bounds of the drawdowns rest on: an object [b'] in mid-run of
    [b] holds no debt and no short position. *)
Definition solvent (b b' : Backtester Q) : Prop :=
  m_signals b' = m_signals b /\ m_slippage b' = m_slippage b /\
  0 <= m_cash b' /\ (0 <= m_position b')%Z.


(** ** Vocabulary of the further properties *)

Section MoreVocabulary.
Context {D : Type} {dbl : Double D}.

(** A trade as [runBacktest] records them from the records [rows]: a side, a
    positive number of shares, the notional of that many shares at the
    execution price, and the timestamp of one of the records. *)
Definition wellFormed (rows : list (Signal D)) (t : Trade D) : Prop :=
  (action t = "BUY"%string \/ action t = "SELL"%string) /\
  (0 < shares t)%Z /\
  value t = (of_int (shares t) * tr_price t)%D /\
  In (tr_timestamp t) (map (@timestamp D) rows).

(** The shares a log leaves open: those of its last trade when that is a
    BUY, none otherwise. *)
Definition openShares (log : list (Trade D)) : Z :=
  match rev log with
  | t :: _ => if String.eqb (action t) "BUY" then shares t else 0%Z
  | [] => 0%Z
  end.

(** Every trade that follows a BUY in the log is a SELL of the same number
    of shares. *)
Definition closesEachBuy (log : list (Trade D)) : Prop :=
  forall i t u,
    nth_error log i = Some t -> nth_error log (S i) = Some u ->
    action t = "BUY"%string ->
    action u = "SELL"%string /\ shares u = shares t.

(** The position is what the log leaves open, and the log pairs every BUY
    with the SELL after it. *)
Definition paired (b : Backtester D) : Prop :=
  m_position b = openShares (m_trades b) /\
  closesEachBuy (m_trades b) /\
  Forall (fun t => (0 < shares t)%Z) (m_trades b).

(** What every trade of the helper's log has: a side, the notional of its
    shares at its price, and the timestamp of one of the records. *)
Definition helperTrade (signals : list (Signal D)) (t : Trade D) : Prop :=
  (action t = "BUY"%string \/ action t = "SELL"%string) /\
  value t = (of_int (shares t) * tr_price t)%D /\
  In (tr_timestamp t) (map (@timestamp D) signals).

(** As long as every trade has a positive number of shares, the helper's
    log alternates and its position is long exactly after an odd number of
    trades. *)
Definition helper_ok (st : SimLoop D) : Prop :=
  Forall (fun t => (0 < shares t)%Z) (trades st) ->
  alternates true (trades st) /\
  (0 <= currentPosition st)%Z /\
  Nat.even (length (trades st)) = (currentPosition st =? 0)%Z.

(** The equity a return is measured against: the initial capital at the
    first step, the previous equity point afterwards. *)
Definition previousEquity (initialCapital : D) (path : list (EquityPoint D))
    (i : nat) : D :=
  match i with
  | O => initialCapital
  | S j => equity (nth j path noEquityPoint)
  end.

End MoreVocabulary.

(** A list of rationals that never falls. *)
Fixpoint nondecreasing (v : list Q) : Prop :=
  match v with
  | [] => True
  | x :: r => match r with [] => True | y :: _ => x <= y end /\ nondecreasing r
  end.

(** A stand-in for [std::sqrt] on the rationals that is exact on squares of
    integers: the integer square root of the floor. *)
Definition Qsqrt_floor (x : Q) : Q := inject_Z (Z.sqrt (Qfloor x)).

(** A stand-in for [std::pow] on the rationals that is exact at integer
    exponents: the power to the floor of the exponent. *)
Definition Qpow_floor (x y : Q) : Q := Qpower x (Qfloor y).

Unset Implicit Arguments.

(** * Properties of the execution loop, for every number type *)

Section EngineFacts.
Context {D : Type} {dbl : Double D}.

(** What [executeTrade] leaves alone. *)
Lemma executeTrade_frame (b : Backtester D) (i : nat) :
  let b' := executeTrade b i in
  m_initialCapital b' = m_initialCapital b /\
  m_slippage b' = m_slippage b /\
  m_latency b' = m_latency b /\
  m_signals b' = m_signals b /\
  m_equity b' = m_equity b /\
  m_drawdowns b' = m_drawdowns b /\
  m_returns b' = m_returns b.
Proof.
  unfold executeTrade.
  destruct (_ && _)%bool; [destruct (0 <? _)%Z|destruct (_ && _)%bool];
    cbn; repeat split; reflexivity.
Qed.

Lemma afterTransition_frame (st : Loop D) (i : nat) :
  let b' := afterTransition st i in
  m_initialCapital b' = m_initialCapital (self st) /\
  m_slippage b' = m_slippage (self st) /\
  m_latency b' = m_latency (self st) /\
  m_signals b' = m_signals (self st) /\
  m_equity b' = m_equity (self st) /\
  m_drawdowns b' = m_drawdowns (self st) /\
  m_returns b' = m_returns (self st).
Proof.
  unfold afterTransition. destruct (negb _).
  - apply executeTrade_frame.
  - cbn. repeat split; reflexivity.
Qed.

(** [loopBody], field by field. *)
Lemma loopBody_fields (st : Loop D) (i : nat) :
  let b := afterTransition st i in
  let e := markToMarket b i in
  let st' := loopBody st i in
  m_initialCapital (self st') = m_initialCapital (self st) /\
  m_slippage (self st') = m_slippage (self st) /\
  m_latency (self st') = m_latency (self st) /\
  m_signals (self st') = m_signals (self st) /\
  m_cash (self st') = m_cash b /\
  m_position (self st') = m_position b /\
  m_trades (self st') = m_trades b /\
  m_equity (self st') =
    m_equity (self st) ++
      [mkEquityPoint (timestamp (nth i (m_signals (self st)) noSignal)) e] /\
  m_drawdowns (self st') =
    m_drawdowns (self st) ++
      [((std_max (highWaterMark st) e - e) / std_max (highWaterMark st) e
        * of_int 100)%D] /\
  m_returns (self st') =
    m_returns (self st) ++ [(e / lastEquity st - of_int 1)%D] /\
  lastEquity st' = e /\
  highWaterMark st' = std_max (highWaterMark st) e /\
  currentSignal st' = signal (nth i (m_signals (self st)) noSignal).
Proof.
  pose proof (afterTransition_frame st i) as F.
  unfold loopBody, afterTransition, markToMarket in *.
  destruct (Z.eqb_spec (signal (nth i (m_signals (self st)) noSignal))
              (currentSignal st)) as [E|E]; cbn [negb] in *;
    cbn in F; destruct F as (F1 & F2 & F3 & F4 & F5 & F6 & F7); cbn;
    rewrite ?F1, ?F2, ?F3, ?F4, ?F5, ?F6, ?F7;
    repeat split; try reflexivity; auto.
Qed.

Lemma loopAfter_0 (b : Backtester D) : loopAfter b 0 = loopInit b.
Proof. reflexivity. Qed.

Lemma loopAfter_S (b : Backtester D) (k : nat) :
  loopAfter b (S k) = loopBody (loopAfter b k) k.
Proof.
  unfold loopAfter. rewrite seq_S, fold_left_app. reflexivity.
Qed.

(** The loop never touches the parameters or the loaded signals, so the
    bound [m_signals.size()] is the same at every iteration. *)
Lemma loopAfter_params (b : Backtester D) (k : nat) :
  let b' := self (loopAfter b k) in
  m_initialCapital b' = m_initialCapital b /\
  m_slippage b' = m_slippage b /\
  m_latency b' = m_latency b /\
  m_signals b' = m_signals b.
Proof.
  induction k as [|k IH]; [cbn; auto|].
  rewrite loopAfter_S. cbn zeta in *.
  destruct (loopBody_fields (loopAfter b k) k) as (F1 & F2 & F3 & F4 & _).
  destruct IH as (I1 & I2 & I3 & I4).
  rewrite F1, F2, F3, F4. auto.
Qed.

Lemma runBacktest_params (b : Backtester D) :
  m_initialCapital (runBacktest b) = m_initialCapital b /\
  m_slippage (runBacktest b) = m_slippage b /\
  m_latency (runBacktest b) = m_latency b /\
  m_signals (runBacktest b) = m_signals b.
Proof.
  unfold runBacktest. destruct (m_signals b) eqn:E; [auto|].
  rewrite <- E. apply loopAfter_params.
Qed.

(** One equity point, one drawdown and one return per iteration. *)
Lemma loopAfter_lengths (b : Backtester D) (k : nat) :
  let b' := self (loopAfter b k) in
  length (m_equity b') = k /\
  length (m_drawdowns b') = k /\
  length (m_returns b') = (length (m_returns b) + k)%nat.
Proof.
  induction k as [|k IH]; [cbn; auto|].
  rewrite loopAfter_S. cbn zeta in *.
  destruct (loopBody_fields (loopAfter b k) k)
    as (_ & _ & _ & _ & _ & _ & _ & F8 & F9 & F10 & _).
  rewrite F8, F9, F10, !length_app. cbn. lia.
Qed.

Lemma equity_length_runBacktest (b : Backtester D) :
  m_signals b <> [] ->
  length (m_equity (runBacktest b)) = length (m_signals b).
Proof.
  intros NE. unfold runBacktest. destruct (m_signals b) eqn:E; [easy|].
  rewrite <- E. apply loopAfter_lengths.
Qed.

Lemma drawdowns_length_runBacktest (b : Backtester D) :
  m_signals b <> [] ->
  length (m_drawdowns (runBacktest b)) = length (m_equity (runBacktest b)).
Proof.
  intros NE. unfold runBacktest. destruct (m_signals b) eqn:E; [easy|].
  rewrite <- E.
  destruct (loopAfter_lengths b (length (m_signals b))) as (-> & -> & _).
  reflexivity.
Qed.

(** [m_returns] is the one vector [runBacktest] does not clear: every run
    appends to what the earlier runs left. *)
Lemma returns_length_runBacktest (b : Backtester D) :
  m_signals b <> [] ->
  length (m_returns (runBacktest b)) =
  (length (m_returns b) + length (m_signals b))%nat.
Proof.
  intros NE. unfold runBacktest. destruct (m_signals b) eqn:E; [easy|].
  rewrite <- E. apply loopAfter_lengths.
Qed.

(** The equity vector after [k] iterations is a prefix of the vector after
    any later iteration. *)
Lemma loopAfter_equity_prefix (b : Backtester D) (k n : nat) :
  (k <= n)%nat ->
  exists rest,
    m_equity (self (loopAfter b n)) = m_equity (self (loopAfter b k)) ++ rest.
Proof.
  induction 1 as [|n _ [rest IH]].
  - exists []. now rewrite app_nil_r.
  - rewrite loopAfter_S.
    destruct (loopBody_fields (loopAfter b n) n)
      as (_ & _ & _ & _ & _ & _ & _ & F8 & _).
    rewrite F8, IH, <- app_assoc. eauto.
Qed.

Lemma loopAfter_drawdowns_prefix (b : Backtester D) (k n : nat) :
  (k <= n)%nat ->
  exists rest,
    m_drawdowns (self (loopAfter b n)) =
    m_drawdowns (self (loopAfter b k)) ++ rest.
Proof.
  induction 1 as [|n _ [rest IH]].
  - exists []. now rewrite app_nil_r.
  - rewrite loopAfter_S.
    destruct (loopBody_fields (loopAfter b n) n)
      as (_ & _ & _ & _ & _ & _ & _ & _ & F9 & _).
    rewrite F9, IH, <- app_assoc. eauto.
Qed.

(** The equity point iteration [i] pushes stays at index [i]. *)
Lemma equity_nth_loopAfter (b : Backtester D) (i n : nat) :
  (i < n)%nat ->
  nth i (m_equity (self (loopAfter b n))) noEquityPoint =
  mkEquityPoint (timestamp (nth i (m_signals b) noSignal))
    (markToMarket (afterTransition (loopAfter b i) i) i).
Proof.
  intros Hi.
  destruct (loopAfter_equity_prefix b (S i) n Hi) as [rest ->].
  rewrite loopAfter_S.
  destruct (loopBody_fields (loopAfter b i) i)
    as (_ & _ & _ & F4 & _ & _ & _ & F8 & _).
  destruct (loopAfter_lengths b i) as (L & _).
  destruct (loopAfter_params b i) as (_ & _ & _ & P4).
  rewrite F8, <- app_assoc, app_nth2 by lia.
  rewrite L, Nat.sub_diag. cbn. now rewrite P4.
Qed.

End EngineFacts.

(** ** The trade log *)

Section TradeLog.
Context {D : Type} {dbl : Double D}.

Lemma alternates_snoc (buy : bool) (log : list (Trade D)) (t : Trade D) :
  alternates buy (log ++ [t]) <->
  alternates buy log /\ action t = side (nextSide buy log).
Proof.
  revert buy. induction log as [|u log IH]; intros buy.
  - cbn. tauto.
  - cbn [app alternates]. rewrite IH. unfold nextSide. cbn [length].
    rewrite Nat.even_succ, <- Nat.negb_even.
    destruct (Nat.even (length log)); cbn [negb];
      rewrite ?negb_involutive; tauto.
Qed.

Lemma executeTrade_log_ok (b : Backtester D) (i : nat) :
  log_ok b -> log_ok (executeTrade b i).
Proof.
  intros (A & P & E). unfold executeTrade.
  destruct (_ && _)%bool eqn:Buy.
  - apply andb_prop in Buy as [_ P0%Z.eqb_eq].
    destruct (Z.ltb_spec 0 (trunc (m_cash b / executionPrice b i)%D)) as [Sh|Sh];
      [|exact (conj A (conj P E))].
    unfold log_ok; cbn. rewrite alternates_snoc, length_app. cbn [length].
    rewrite Nat.add_1_r, Nat.even_succ, <- Nat.negb_even.
    unfold nextSide. rewrite E, P0. cbn.
    repeat split; auto; lia.
  - clear Buy. destruct (_ && _)%bool eqn:Sell; [|exact (conj A (conj P E))].
    apply andb_prop in Sell as [_ Pp%Z.ltb_lt].
    unfold log_ok; cbn. rewrite alternates_snoc, length_app. cbn [length].
    rewrite Nat.add_1_r, Nat.even_succ, <- Nat.negb_even.
    unfold nextSide. rewrite E.
    destruct (Z.eqb_spec (m_position b) 0); [lia|]. cbn.
    repeat split; auto; lia.
Qed.

Lemma loopAfter_log_ok (b : Backtester D) (k : nat) :
  log_ok (self (loopAfter b k)).
Proof.
  induction k as [|k IH].
  - cbn. unfold log_ok. cbn. auto with zarith.
  - rewrite loopAfter_S.
    destruct (loopBody_fields (loopAfter b k) k)
      as (_ & _ & _ & _ & _ & F6 & F7 & _).
    unfold log_ok. rewrite F6, F7.
    unfold afterTransition. destruct (negb _); [|exact IH].
    now apply executeTrade_log_ok.
Qed.

Lemma alternates_head (log : list (Trade D)) (t : Trade D) :
  alternates true log -> hd_error log = Some t -> action t = "BUY"%string.
Proof.
  destruct log; cbn; [discriminate|].
  intros [A _] [= ->]. exact A.
Qed.

Lemma alternates_neighbours (buy : bool) (log : list (Trade D)) (i : nat)
    (t u : Trade D) :
  alternates buy log ->
  nth_error log i = Some t -> nth_error log (S i) = Some u ->
  action t <> action u.
Proof.
  revert buy i. induction log as [|x log IH]; intros buy i A Ht Hu.
  - destruct i; discriminate.
  - destruct i as [|i].
    + destruct log as [|y log]; [discriminate|].
      cbn in Ht, Hu. injection Ht as ->. injection Hu as ->.
      destruct A as (-> & -> & _). now destruct buy.
    + destruct A as [_ A]. exact (IH _ _ A Ht Hu).
Qed.

End TradeLog.

(** ** Running twice *)

Section Rerun.
Context {D : Type} {dbl : Double D}.

Lemma agree_fields (b b' : Backtester D) :
  agree b b' ->
  m_trades b = m_trades b' /\ m_equity b = m_equity b' /\
  m_drawdowns b = m_drawdowns b'.
Proof.
  unfold agree, set_returns. intros [= _ _ _ _ _ _ -> -> ->]. auto.
Qed.

Lemma loopBody_agree (st st' : Loop D) (i : nat) :
  agreeLoop st st' -> agreeLoop (loopBody st i) (loopBody st' i).
Proof.
  destruct st as [b le h c], st' as [b' le' h' c'].
  destruct b, b'. unfold agreeLoop, agree, set_returns. cbn.
  intros ([= -> -> -> -> -> -> -> -> ->] & -> & -> & ->).
  unfold loopBody, executeTrade, executionPrice, latencyPrice. cbn.
  repeat match goal with
         | |- context [if ?c then _ else _] => destruct c; cbn
         end; auto.
Qed.

Lemma loopInit_agree (b b' : Backtester D) :
  m_initialCapital b = m_initialCapital b' ->
  m_slippage b = m_slippage b' ->
  m_latency b = m_latency b' ->
  m_signals b = m_signals b' ->
  agreeLoop (loopInit b) (loopInit b').
Proof.
  destruct b, b'. cbn. intros -> -> -> ->.
  unfold agreeLoop, agree, loopInit. cbn. auto.
Qed.

Lemma loopAfter_agree (b b' : Backtester D) (k : nat) :
  agreeLoop (loopInit b) (loopInit b') ->
  agreeLoop (loopAfter b k) (loopAfter b' k).
Proof.
  intros H. induction k as [|k IH]; [exact H|].
  rewrite !loopAfter_S. now apply loopBody_agree.
Qed.

(** A second run recomputes every vector but [m_returns] to the same
    value. *)
Lemma runBacktest_twice_agree (b : Backtester D) :
  agree (runBacktest (runBacktest b)) (runBacktest b).
Proof.
  destruct (runBacktest_params b) as (P1 & P2 & P3 & P4).
  unfold runBacktest at 1. rewrite P4.
  destruct (m_signals b) eqn:E; [reflexivity|].
  unfold runBacktest at 2. rewrite E, <- E. rewrite <- E in P4.
  apply loopAfter_agree, loopInit_agree; assumption.
Qed.

End Rerun.

(** ** The drawdown series as a function of the equity path *)

Section DrawdownSeries.
Context {D : Type} {dbl : Double D}.

Lemma loopAfter_drawdownFold (b : Backtester D) (k : nat) :
  let st := loopAfter b k in
  (highWaterMark st, m_drawdowns (self st)) =
  fold_left drawdownStep (map (@equity D) (m_equity (self st)))
    (m_initialCapital b, []).
Proof.
  induction k as [|k IH]; [reflexivity|].
  rewrite loopAfter_S. cbn zeta in *.
  destruct (loopBody_fields (loopAfter b k) k)
    as (_ & _ & _ & _ & _ & _ & _ & F8 & F9 & _ & _ & F12 & _).
  rewrite F8, F9, F12, map_app, fold_left_app, <- IH. reflexivity.
Qed.

Lemma max_element_snoc (v : list D) (x : D) :
  v <> [] -> max_element (v ++ [x]) = std_max (max_element v) x.
Proof.
  destruct v as [|y v]; [easy|]. intros _. cbn.
  now rewrite fold_left_app.
Qed.

End DrawdownSeries.

(** * Exact arithmetic *)

Ltac unfold_Q :=
  cbn [of_int dadd dsub dmul ddiv dlt dle deq trunc Q_Double] in *.

Lemma Qlt_bool_iff (x y : Q) : Qlt_bool x y = true <-> x < y.
Proof.
  unfold Qlt_bool. rewrite negb_true_iff, <- not_true_iff_false, Qle_bool_iff.
  split; [apply Qnot_le_lt | apply Qlt_not_le].
Qed.

Lemma Qlt_bool_false_iff (x y : Q) : Qlt_bool x y = false <-> y <= x.
Proof.
  unfold Qlt_bool. now rewrite negb_false_iff, Qle_bool_iff.
Qed.

#[export] Instance Qlt_bool_comp : Proper (Qeq ==> Qeq ==> eq) Qlt_bool.
Proof.
  intros x x' Hx y y' Hy. unfold Qlt_bool. now rewrite Hx, Hy.
Qed.

Lemma Qlt_bool_spec (x y : Q) : reflect (x < y) (Qlt_bool x y).
Proof.
  destruct (Qlt_bool x y) eqn:E; constructor.
  - now apply Qlt_bool_iff.
  - apply Qlt_bool_false_iff in E. now apply Qle_not_lt.
Qed.

(** A positive truncated quotient is the floor. *)
Lemma Qtrunc_pos_le (x : Q) : (0 < Qtrunc x)%Z -> inject_Z (Qtrunc x) <= x.
Proof.
  unfold Qtrunc. intros H.
  assert (0 <= Qnum x)%Z as Hn.
  { destruct (Z.le_gt_cases 0 (Qnum x)) as [|Hneg]; [assumption|].
    pose proof (Z.quot_opp_l (- Qnum x) (Zpos (Qden x)) ltac:(lia)) as E.
    rewrite Z.opp_involutive in E.
    pose proof (Z.quot_pos (- Qnum x) (Zpos (Qden x)) ltac:(lia) ltac:(lia)).
    lia. }
  rewrite Z.quot_div_nonneg by lia.
  pose proof (Qfloor_le x) as F. destruct x as [n d]. exact F.
Qed.

Lemma Qtrunc_small (x : Q) : 0 <= x -> x < 1 -> Qtrunc x = 0%Z.
Proof.
  destruct x as [n d]. unfold Qtrunc, Qle, Qlt. cbn. intros H0 H1.
  apply Z.quot_small. lia.
Qed.

Lemma std_max_Q_cases (a b : Q) :
  (a < b /\ std_max a b = b) \/ (b <= a /\ std_max a b = a).
Proof.
  unfold std_max. unfold_Q. destruct (Qlt_bool_spec a b) as [H|H]; [now left|].
  right. split; [now apply Qnot_lt_le|reflexivity].
Qed.

#[export] Instance std_max_Q_comp : Proper (Qeq ==> Qeq ==> Qeq) (@std_max Q _).
Proof.
  intros a a' Ha b b' Hb. unfold std_max. unfold_Q.
  rewrite <- Ha, <- Hb. now destruct (Qlt_bool a b).
Qed.

(** ** Engine and analyzer on one equity path *)

(** Fed the same equity values, the engine's loop and
    [calculateMaxDrawdown] keep the same peak and the same maximum, once the
    first value has reached the engine's seed [C]. *)
Lemma drawdown_folds_agree (C e1 : Q) (es : list Q) :
  hd_error es = Some e1 -> C <= e1 ->
  let eng := fold_left drawdownStep es (C, []) in
  let ana := fold_left maxDrawdownStep es (of_int 0, e1) in
  fst eng == snd ana /\ max_element (snd eng) == fst ana /\ snd eng <> [].
Proof.
  induction es as [|e es IH] using rev_ind; [discriminate|].
  intros Hhd HC. rewrite !fold_left_app. cbn [fold_left].
  destruct es as [|e0 es].
  - (* the first value *)
    cbn in Hhd. injection Hhd as ->. cbn [fold_left app].
    unfold drawdownStep, maxDrawdownStep. cbn [fst snd app max_element fold_left].
    assert (std_max C e1 == e1) as Hh.
    { destruct (std_max_Q_cases C e1) as [[_ ->]|[H ->]]; [reflexivity|].
      now apply Qle_antisym. }
    unfold_Q.
    assert ((if Qlt_bool e1 e1 then e1 else e1) = e1) as -> by now destruct Qlt_bool.
    repeat split; [exact Hh| |discriminate].
    rewrite Hh. unfold std_max. unfold_Q.
    assert ((e1 - e1) / e1 * inject_Z 100 == 0) as Hz.
    { unfold Qminus. rewrite Qplus_opp_r. unfold Qdiv. now rewrite !Qmult_0_l. }
    rewrite Hz.
    destruct (Qlt_bool_spec (inject_Z 0) ((e1 - e1) / e1 * inject_Z 100)); [|reflexivity].
    now symmetry.
  - cbn in Hhd. specialize (IH Hhd HC). cbn zeta in IH.
    destruct IH as (Hh & Hm & Hne).
    set (eng := fold_left drawdownStep (e0 :: es) (C, [])) in *.
    set (ana := fold_left maxDrawdownStep (e0 :: es) (of_int 0, e1)) in *.
    destruct eng as [h dds], ana as [m p]. cbn [fst snd] in *.
    unfold drawdownStep, maxDrawdownStep. cbn [fst snd].
    rewrite max_element_snoc by assumption.
    assert (std_max h e == (if (p <? e)%D then e else p)) as Hh'.
    { unfold std_max. unfold_Q. rewrite Hh. now destruct (Qlt_bool p e). }
    repeat split; [exact Hh'| |now destruct dds].
    unfold_Q. now rewrite Hm, Hh'.
Qed.

Lemma runBacktest_loaded_nonempty (C s L : Q) (rows : list (Signal Q)) :
  rows <> [] ->
  runBacktest (loaded C s L rows) =
  self (loopAfter (loaded C s L rows) (length rows)).
Proof.
  intros NE. unfold runBacktest. cbn. destruct rows; [easy|reflexivity].
Qed.

Lemma runBacktest_loaded_empty (C s L : Q) :
  runBacktest (loaded C s L []) = loaded C s L [].
Proof. reflexivity. Qed.

(** C1, as stated, fails: with slippage 1% a single buy at 100 out of a
    capital of 10000 leaves an equity of 9901, which the engine measures
    against its seed 10000 (drawdown 0.99%) and [calculateMaxDrawdown]
    against the first equity value itself (drawdown 0). *)
Lemma max_drawdown_seeds_differ :
  ~ (forall (C s L : Q) (rows : list (Signal Q)),
        rows <> [] -> Forall (fun r => 0 < price r) rows ->
        0 < C -> 0 <= s -> 0 <= L ->
        let b := runBacktest (loaded C s L rows) in
        max_element (m_drawdowns b) ==
        calculateMaxDrawdown (map (@equity Q) (m_equity b))).
Proof.
  intros H.
  specialize (H 10000 (1 # 100) 0 oneBuy).
  assert (max_element (m_drawdowns (runBacktest (loaded 10000 (1 # 100) 0 oneBuy)))
          == 99 # 100) as E1 by (vm_compute; reflexivity).
  assert (calculateMaxDrawdown
            (map (@equity Q) (m_equity (runBacktest (loaded 10000 (1 # 100) 0 oneBuy))))
          == 0) as E2 by (vm_compute; reflexivity).
  cbn zeta in H. rewrite E1, E2 in H.
  assert (99 # 100 == 0 -> False) as Hne by discriminate.
  apply Hne, H.
  - discriminate.
  - repeat constructor.
  - reflexivity.
  - discriminate.
  - discriminate.
Qed.

(** Without slippage and without latency the first equity value is the
    initial capital: what a buy at the first record spends in cash it holds
    in shares marked at the same price. *)
Lemma first_equity_without_friction (C L : Q) (rows : list (Signal Q))
    (first : EquityPoint Q) :
  L <= 0 ->
  hd_error (m_equity (runBacktest (loaded C 0 L rows))) = Some first ->
  equity first == C.
Proof.
  intros HL Hfirst.
  destruct rows as [|r rows]; [discriminate|].
  rewrite runBacktest_loaded_nonempty in Hfirst by discriminate.
  set (b0 := loaded C 0 L (r :: rows)) in *.
  pose proof (equity_nth_loopAfter b0 0 (length (r :: rows)) ltac:(cbn; lia)) as E.
  destruct (m_equity (self (loopAfter b0 (length (r :: rows))))) as [|p ps];
    [discriminate|].
  cbn [hd_error] in Hfirst. cbn [nth] in E.
  injection Hfirst as <-. rewrite E. cbn [equity].
  clear E. set (st := loopAfter b0 0).
  assert (m_cash (self st) = C /\ m_position (self st) = 0%Z /\
          m_slippage (self st) = 0 /\ m_latency (self st) = L /\
          m_signals (self st) = r :: rows /\ currentSignal st = 0%Z)
    as (Hc & Hp & Hs & Hl & Hr & Hcur) by (repeat split; reflexivity).
  assert (executionPrice (self st) 0 = price r * (1 + 0) \/
          executionPrice (self st) 0 = price r * (1 - 0)) as Hexec.
  { unfold executionPrice, latencyPrice. rewrite Hl, Hs, Hr. unfold_Q.
    assert (Qlt_bool (inject_Z 0) L = false) as -> by now apply Qlt_bool_false_iff.
    cbn [nth]. destruct (_ =? 1)%Z; [left|right]; reflexivity. }
  unfold markToMarket, afterTransition, executeTrade.
  rewrite Hcur, Hp, Hc, Hr. cbn [nth].
  destruct (signal r =? 0)%Z eqn:S0; cbn [negb andb];
    [rewrite Hp, Hc; reflexivity|].
  destruct (signal r =? 1)%Z; cbn [negb andb Z.eqb Z.ltb Z.compare];
    [|rewrite Hp, Hc; reflexivity].
  unfold_Q.
  destruct (Z.ltb_spec 0 (Qtrunc (C / executionPrice (self st) 0))) as [Sh|Sh];
    [|rewrite Hp, Hc; reflexivity].
  cbn [m_position m_cash m_signals set_position set_cash set_trades nth].
  destruct (Z.ltb_spec 0 (Qtrunc (C / executionPrice (self st) 0))) as [_|Sh'];
    [|lia].
  rewrite Hc, Hr. cbn [nth].
  destruct Hexec as [-> | ->]; ring.
Qed.

(** C1, amended: when the first equity value of the run is at least the
    initial capital [C > 0], the maximum of the engine's drawdown series
    equals what [calculateMaxDrawdown] returns on the equity values of the
    same run. *)
Theorem max_drawdown_engine_analyzer (C s L : Q) (rows : list (Signal Q))
    (first : EquityPoint Q) :
  0 < C ->
  let b := runBacktest (loaded C s L rows) in
  hd_error (m_equity b) = Some first ->
  C <= equity first ->
  max_element (m_drawdowns b) ==
  calculateMaxDrawdown (map (@equity Q) (m_equity b)).
Proof.
  intros _ b Hfirst HC. subst b.
  destruct rows as [|r rows]; [discriminate|].
  rewrite runBacktest_loaded_nonempty in * by discriminate.
  set (b0 := loaded C s L (r :: rows)) in *.
  pose proof (loopAfter_drawdownFold b0 (length (r :: rows))) as F.
  cbn zeta in F.
  set (st := loopAfter b0 (length (r :: rows))) in *.
  assert (hd_error (map (@equity Q) (m_equity (self st))) = Some (equity first)) as Hhd.
  { destruct (m_equity (self st)); [discriminate|]. cbn in *. congruence. }
  destruct (drawdown_folds_agree _ _ (map (@equity Q) (m_equity (self st))) Hhd HC)
    as (_ & Hm & _).
  change (m_initialCapital b0) with C in F. rewrite <- F in Hm. cbn [snd] in Hm.
  rewrite Hm. unfold calculateMaxDrawdown.
  destruct (map (@equity Q) (m_equity (self st))) as [|v0 vs]; [discriminate|].
  cbn in Hhd. injection Hhd as ->. reflexivity.
Qed.

Lemma max_drawdown_engine_analyzer_witness :
  let b := runBacktest (loaded 10000 0 0 riseAndFall) in
  max_element (m_drawdowns b) ==
  calculateMaxDrawdown (map (@equity Q) (m_equity b)).
Proof.
  apply (max_drawdown_engine_analyzer 10000 0 0 riseAndFall
           (mkEquityPoint "t0" 10000)).
  - reflexivity.
  - reflexivity.
  - discriminate.
Defined.

(** ** Mark-to-market accounting *)

Lemma runBacktest_nonempty {D} `{Double D} (b : Backtester D) :
  m_signals b <> [] ->
  runBacktest b = self (loopAfter b (length (m_signals b))).
Proof.
  intros NE. unfold runBacktest. destruct (m_signals b) eqn:E; [easy|].
  now rewrite <- E.
Qed.



(** ** High-water mark and drawdown bounds *)

(** The index the latency offset selects is a valid index. *)
Lemma latency_index_in_range (n i : nat) (steps : Z) :
  (i < n)%nat ->
  (Z.to_nat (Z.min (size_add (Z.of_nat i) steps) (Z.of_nat n - 1)) < n)%nat.
Proof. intros Hi. lia. Qed.

Section Bounds.
Variable b : Backtester Q.
Hypothesis prices_positive : Forall (fun r => 0 < price r) (m_signals b).
Hypothesis slippage_range : 0 <= m_slippage b <= 1.

Let n := length (m_signals b).

Lemma price_nth_positive (j : nat) :
  (j < n)%nat -> 0 < price (nth j (m_signals b) noSignal).
Proof.
  intros Hj. rewrite Forall_forall in prices_positive.
  apply prices_positive, nth_In, Hj.
Qed.

Lemma latencyPrice_positive (b' : Backtester Q) (i : nat) :
  m_signals b' = m_signals b -> (i < n)%nat -> 0 < latencyPrice b' i.
Proof.
  intros Hs Hi. unfold latencyPrice. rewrite Hs.
  destruct (_ <? _)%D; apply price_nth_positive;
    [apply latency_index_in_range|]; exact Hi.
Qed.

Lemma executeTrade_solvent (b' : Backtester Q) (i : nat) :
  (i < n)%nat -> solvent b b' -> solvent b (executeTrade b' i).
Proof.
  intros Hi (Hs & Hsl & Hc & Hp).
  pose proof (latencyPrice_positive b' i Hs Hi) as Hbase.
  destruct slippage_range as [Hs0 Hs1].
  unfold executeTrade, executionPrice. rewrite Hsl.
  set (base := latencyPrice b' i) in *.
  destruct (_ && _)%bool eqn:Buy.
  - apply andb_prop in Buy as [S1%Z.eqb_eq P0%Z.eqb_eq]. rewrite S1. cbn [Z.eqb Pos.eqb].
    unfold_Q. set (eff := base * (inject_Z 1 + m_slippage b)).
    assert (0 < eff) as Heff.
    { subst eff. apply Qmult_lt_0_compat; [exact Hbase|].
      change (inject_Z 1) with 1. lra. }
    destruct (Z.ltb_spec 0 (Qtrunc (m_cash b' / eff))) as [Sh|Sh];
      [|now repeat split].
    unfold solvent. cbn. repeat split; auto; [|lia].
    pose proof (Qtrunc_pos_le _ Sh) as Hle.
    apply (Qmult_le_compat_r _ _ eff) in Hle; [|now apply Qlt_le_weak].
    assert (m_cash b' / eff * eff == m_cash b') as E
        by (field; intros Z0; rewrite Z0 in Heff; inversion Heff).
    rewrite E in Hle. lra.
  - clear Buy. destruct (_ && _)%bool eqn:Sell; [|now repeat split].
    apply andb_prop in Sell as [S0%Z.eqb_eq Pp%Z.ltb_lt]. rewrite S0. cbn [Z.eqb].
    unfold_Q. unfold solvent. cbn. repeat split; auto; [|lia].
    assert (0 <= base * (inject_Z 1 - m_slippage b)) as Heff.
    { apply Qmult_le_0_compat; [now apply Qlt_le_weak|].
      change (inject_Z 1) with 1. lra. }
    assert (0 <= inject_Z (m_position b')) as Hpq
        by (change 0 with (inject_Z 0); now rewrite <- Zle_Qle).
    pose proof (Qmult_le_0_compat _ _ Hpq Heff). lra.
Qed.

Lemma afterTransition_solvent (st : Loop Q) (i : nat) :
  (i < n)%nat -> solvent b (self st) -> solvent b (afterTransition st i).
Proof.
  intros Hi H. unfold afterTransition.
  destruct (negb _); [now apply executeTrade_solvent|exact H].
Qed.

Lemma markToMarket_nonneg (b' : Backtester Q) (i : nat) :
  (i < n)%nat -> solvent b b' -> 0 <= markToMarket b' i.
Proof.
  intros Hi (Hs & _ & Hc & Hp). unfold markToMarket. rewrite Hs. unfold_Q.
  destruct (0 <? m_position b')%Z; [|exact Hc].
  pose proof (price_nth_positive i Hi) as Hpr.
  assert (0 <= inject_Z (m_position b')) as Hpq
      by (change 0 with (inject_Z 0); now rewrite <- Zle_Qle).
  pose proof (Qmult_le_0_compat _ _ Hpq (Qlt_le_weak _ _ Hpr)). lra.
Qed.

(** A drawdown measured from a positive mark that the equity does not
    exceed, of a non-negative equity, is a percentage. *)
Lemma drawdown_percent (h e : Q) :
  0 < h -> 0 <= e -> e <= h -> 0 <= (h - e) / h * 100 <= 100.
Proof.
  intros Hh He Hle.
  assert (0 <= (h - e) / h) as H0 by (apply Qle_shift_div_l; [exact Hh|lra]).
  assert ((h - e) / h <= 1) as H1 by (apply Qle_shift_div_r; [exact Hh|lra]).
  lra.
Qed.

Hypothesis capital_positive : 0 < m_initialCapital b.

Lemma loopAfter_solvent (k : nat) :
  (k <= n)%nat ->
  solvent b (self (loopAfter b k)) /\ 0 < highWaterMark (loopAfter b k).
Proof.
  induction k as [|k IH]; intros Hk.
  - cbn. unfold solvent. cbn. repeat split; auto; try lia.
    now apply Qlt_le_weak.
  - destruct IH as [Hsol Hh]; [lia|].
    rewrite loopAfter_S.
    destruct (loopBody_fields (loopAfter b k) k)
      as (_ & F2 & _ & F4 & F5 & F6 & _ & _ & _ & _ & _ & F12 & _).
    pose proof (afterTransition_solvent (loopAfter b k) k Hk Hsol)
      as (T1 & T2 & T3 & T4).
    destruct Hsol as (S1 & S2 & _).
    unfold solvent. rewrite F2, F4, F5, F6, F12.
    repeat split; auto.
    destruct (std_max_Q_cases (highWaterMark (loopAfter b k))
                (markToMarket (afterTransition (loopAfter b k) k) k))
      as [[Hlt ->]|[_ ->]]; [|exact Hh].
    now apply Qlt_trans with (highWaterMark (loopAfter b k)).
Qed.

Lemma highWaterMark_step (k : nat) :
  highWaterMark (loopAfter b k) <= highWaterMark (loopAfter b (S k)).
Proof.
  rewrite loopAfter_S.
  destruct (loopBody_fields (loopAfter b k) k)
    as (_ & _ & _ & _ & _ & _ & _ & _ & _ & _ & _ & F12 & _).
  rewrite F12.
  destruct (std_max_Q_cases (highWaterMark (loopAfter b k))
              (markToMarket (afterTransition (loopAfter b k) k) k))
    as [[Hlt ->]|[_ ->]]; [now apply Qlt_le_weak|apply Qle_refl].
Qed.

Lemma loopAfter_drawdowns_percent (k : nat) :
  (k <= n)%nat ->
  Forall (fun d => 0 <= d <= 100) (m_drawdowns (self (loopAfter b k))).
Proof.
  induction k as [|k IH]; intros Hk; [constructor|].
  rewrite loopAfter_S.
  destruct (loopBody_fields (loopAfter b k) k)
    as (_ & _ & _ & _ & _ & _ & _ & _ & F9 & _).
  rewrite F9. apply Forall_app. split; [apply IH; lia|].
  constructor; [|constructor].
  destruct (loopAfter_solvent k ltac:(lia)) as [Hsol Hh].
  pose proof (markToMarket_nonneg _ k Hk
                (afterTransition_solvent (loopAfter b k) k Hk Hsol)) as He.
  unfold_Q. change (inject_Z 100) with 100.
  destruct (std_max_Q_cases (highWaterMark (loopAfter b k))
              (markToMarket (afterTransition (loopAfter b k) k) k))
    as [[Hlt ->]|[Hle ->]]; apply drawdown_percent; auto.
  - now apply Qlt_trans with (highWaterMark (loopAfter b k)).
  - apply Qle_refl.
Qed.

End Bounds.

(** In exact arithmetic positive prices, a positive initial capital and a
    slippage in [[0, 1]] keep the cash, and with it every recorded equity,
    non-negative, so that every drawdown of the series lies in [[0, 100]].
    The rounding of binary64 does not keep the cash non-negative
    ([Binary64Facts.overdrawn_binary64]). *)
Lemma exact_drawdowns_are_percentages (C s L : Q) (rows : list (Signal Q)) :
  Forall (fun r => 0 < price r) rows ->
  0 < C ->
  0 <= s <= 1 ->
  Forall (fun d => 0 <= d <= 100) (m_drawdowns (runBacktest (loaded C s L rows))).
Proof.
  intros Hprices HC Hs.
  destruct rows as [|r rows]; [constructor|].
  rewrite runBacktest_loaded_nonempty by discriminate.
  now apply loopAfter_drawdowns_percent.
Qed.

(** ** What the loop guarantees without a bound on the equity *)

Lemma highWaterMark_positive (b : Backtester Q) (k : nat) :
  0 < m_initialCapital b -> 0 < highWaterMark (loopAfter b k).
Proof.
  intros HC. induction k as [|k IH]; [exact HC|].
  apply Qlt_le_trans with (highWaterMark (loopAfter b k)); [exact IH|].
  apply highWaterMark_step.
Qed.

Lemma drawdown_nonneg (h e : Q) :
  0 < h -> e <= h -> 0 <= (h - e) / h * 100.
Proof.
  intros Hh Hle.
  assert (0 <= (h - e) / h) as H0 by (apply Qle_shift_div_l; [exact Hh|lra]).
  lra.
Qed.

(** After [k] iterations every recorded drawdown is non-negative, and at
    most 100 where the equity recorded at the same index is non-negative. *)
Lemma loopAfter_drawdown_bounds (b : Backtester Q) (k : nat) :
  0 < m_initialCapital b ->
  forall i, (i < k)%nat ->
  let d := nth i (m_drawdowns (self (loopAfter b k))) 0 in
  let e := equity (nth i (m_equity (self (loopAfter b k))) noEquityPoint) in
  0 <= d /\ (0 <= e -> d <= 100).
Proof.
  intros HC. induction k as [|k IH]; intros i Hi; [lia|].
  destruct (loopAfter_lengths b k) as (Le & Ld & _).
  pose proof (highWaterMark_positive b k HC) as Hh.
  cbn zeta. rewrite loopAfter_S.
  destruct (loopBody_fields (loopAfter b k) k)
    as (_ & _ & _ & _ & _ & _ & _ & F8 & F9 & _).
  rewrite F8, F9.
  destruct (Nat.eq_dec i k) as [->|Hne].
  - rewrite !app_nth2 by lia. rewrite Le, Ld, Nat.sub_diag.
    cbn [nth equity].
    set (e := markToMarket (afterTransition (loopAfter b k) k) k).
    unfold_Q. change (inject_Z 100) with 100.
    destruct (std_max_Q_cases (highWaterMark (loopAfter b k)) e)
      as [[Hlt ->]|[Hle ->]].
    + assert (0 < e) as He
          by now apply Qlt_trans with (highWaterMark (loopAfter b k)).
      split; [apply drawdown_nonneg; [exact He|apply Qle_refl]|].
      intros He0. apply drawdown_percent; [exact He|exact He0|apply Qle_refl].
    + split; [now apply drawdown_nonneg|].
      intros He0. now apply drawdown_percent.
  - rewrite !app_nth1 by lia. apply IH. lia.
Qed.



(** * The claims that do not depend on the arithmetic *)

Section Structural.
Context {D : Type} {dbl : Double D}.

Lemma runBacktest_log_ok (b : Backtester D) :
  m_signals b <> [] -> log_ok (runBacktest b).
Proof.
  intros NE. rewrite (runBacktest_nonempty b NE). apply loopAfter_log_ok.
Qed.

(** C5: the sides of the trade log of a run alternate BUY, SELL, BUY, ...:
    the first trade, if any, is a BUY, and no two consecutive trades have
    the same side. *)
Theorem trade_sides_alternate (C s L : D) (rows : list (Signal D)) :
  let log := m_trades (runBacktest (loaded C s L rows)) in
  alternates true log /\
  (forall t, hd_error log = Some t -> action t = "BUY"%string) /\
  (forall i t u,
      nth_error log i = Some t -> nth_error log (S i) = Some u ->
      action t <> action u).
Proof.
  intros log.
  assert (alternates true log) as A.
  { subst log. destruct rows as [|r rows]; [exact I|].
    apply runBacktest_log_ok. discriminate. }
  split; [exact A|]. split.
  - intros t. now apply alternates_head.
  - intros i t u. now apply alternates_neighbours with (buy := true).
Qed.

(** C9: a second [runBacktest] on the same object leaves the trade log and
    the equity path of the first run, element for element. *)
Theorem runBacktest_twice_same_outputs (b : Backtester D) :
  m_trades (runBacktest (runBacktest b)) = m_trades (runBacktest b) /\
  m_equity (runBacktest (runBacktest b)) = m_equity (runBacktest b).
Proof.
  destruct (agree_fields _ _ (runBacktest_twice_agree b)) as (T & E & _).
  now split.
Qed.

(** After the first run of a fresh object the return series has one entry
    per equity point. *)
Lemma returns_length_first_run (C s L : D) (rows : list (Signal D)) :
  let b := runBacktest (loaded C s L rows) in
  length (m_returns b) = length (m_equity b).
Proof.
  destruct rows as [|r rows]; [reflexivity|]. cbn zeta.
  rewrite returns_length_runBacktest, equity_length_runBacktest by discriminate.
  reflexivity.
Qed.

(** Every further run adds one return per record and replaces the equity
    path: after [runs] runs the return series is [runs] times as long. *)
Lemma returns_length_reruns (C s L : D) (rows : list (Signal D)) (runs : nat) :
  rows <> [] ->
  let b := Nat.iter runs runBacktest (loaded C s L rows) in
  m_signals b = rows /\
  length (m_returns b) = (runs * length rows)%nat /\
  (0 < runs -> length (m_equity b) = length rows)%nat.
Proof.
  intros NE. induction runs as [|runs (S & R & E)]; cbn zeta.
  - cbn. repeat split; auto. lia.
  - rewrite Nat.iter_succ.
    set (b := Nat.iter runs runBacktest (loaded C s L rows)) in *.
    assert (m_signals b <> []) as NE' by now rewrite S.
    destruct (runBacktest_params b) as (_ & _ & _ & P4).
    rewrite returns_length_runBacktest, equity_length_runBacktest, R, S
      by assumption.
    split; [congruence|]. split; [lia|auto].
Qed.

End Structural.

(** C2 on the code: two runs of one object with one loaded record leave one
    equity point and two returns, because [runBacktest] clears [m_equity],
    [m_trades] and [m_drawdowns] but not [m_returns]. *)
Lemma returns_outgrow_equity :
  let b := runBacktest (runBacktest (loaded 10000 0 0 oneBuy)) in
  length (m_equity b) = 1%nat /\ length (m_returns b) = 2%nat.
Proof. split; reflexivity. Qed.

(** ** A buy that cannot afford one share *)

Section FailedBuy.
Context {D : Type} {dbl : Double D}.
Variable b : Backtester D.
Variable i : nat.

Let before := loopAfter b i.

Hypothesis flat : m_position (self before) = 0%Z.
Hypothesis no_share :
  trunc (m_cash (self before) / executionPrice (self before) i)%D = 0%Z.

(** Record [i] trades nothing, whether its transition fires or not. *)
Lemma failed_buy_transition :
  signal (nth i (m_signals b) noSignal) = 1%Z ->
  afterTransition before i = self before.
Proof.
  intros S1. destruct (loopAfter_params b i) as (_ & _ & _ & P4).
  fold before in P4. unfold afterTransition, executeTrade.
  rewrite P4, S1, flat, no_share.
  now destruct (1 =? currentSignal before)%Z.
Qed.

(** While the signal stays at 1 nothing is attempted again. *)
Lemma failed_buy_state (j : nat) :
  (i <= j)%nat ->
  (forall k, (i <= k <= j)%nat -> signal (nth k (m_signals b) noSignal) = 1%Z) ->
  let after := loopAfter b (S j) in
  m_trades (self after) = m_trades (self before) /\
  m_position (self after) = 0%Z /\
  m_cash (self after) = m_cash (self before) /\
  currentSignal after = 1%Z.
Proof.
  intros Hij. induction Hij as [|j Hij IH]; intros Hsig; cbn zeta.
  - rewrite loopAfter_S. fold before.
    destruct (loopBody_fields before i)
      as (_ & _ & _ & _ & F5 & F6 & F7 & _ & _ & _ & _ & _ & F13).
    destruct (loopAfter_params b i) as (_ & _ & _ & P4). fold before in P4.
    rewrite F5, F6, F7, F13, P4, failed_buy_transition by (apply Hsig; lia).
    repeat split; auto.
  - destruct IH as (T & P & C & Sg); [intros k Hk; apply Hsig; lia|].
    rewrite loopAfter_S.
    set (st := loopAfter b (S j)) in *.
    destruct (loopBody_fields st (S j))
      as (_ & _ & _ & _ & F5 & F6 & F7 & _ & _ & _ & _ & _ & F13).
    destruct (loopAfter_params b (S j)) as (_ & _ & _ & P4). fold st in P4.
    assert (afterTransition st (S j) = self st) as E.
    { unfold afterTransition. rewrite P4, Sg, (Hsig (S j)) by lia. reflexivity. }
    rewrite F5, F6, F7, F13, E, P4. repeat split; auto.
Qed.

(** The equity recorded meanwhile is the untouched cash. *)
Lemma failed_buy_equity (j : nat) :
  (i <= j < length (m_signals b))%nat ->
  (forall k, (i <= k <= j)%nat -> signal (nth k (m_signals b) noSignal) = 1%Z) ->
  equity (nth j (m_equity (runBacktest b)) noEquityPoint) = m_cash (self before).
Proof.
  intros [Hij Hj] Hsig.
  assert (m_signals b <> []) as NE
      by (destruct (m_signals b); [cbn in Hj; lia|easy]).
  rewrite (runBacktest_nonempty b NE), (equity_nth_loopAfter b j _ Hj).
  cbn [equity].
  destruct (failed_buy_state j Hij Hsig) as (_ & P & C & _).
  rewrite loopAfter_S in P, C.
  destruct (loopBody_fields (loopAfter b j) j) as (_ & _ & _ & _ & F5 & F6 & _).
  rewrite F5 in C. rewrite F6 in P.
  unfold markToMarket. now rewrite P, C.
Qed.

End FailedBuy.

(** C7: when a buy transition fires at record [i] and the truncated quotient
    of cash by execution price is 0, no trade is recorded, position and cash
    stay as they were and the current signal becomes 1; while the following
    records keep the signal at 1 nothing is attempted again, and the equity
    recorded at each of them is the untouched cash. *)
Theorem failed_buy_is_not_retried {D : Type} {dbl : Double D}
    (b : Backtester D) (i j : nat) :
  (i <= j < length (m_signals b))%nat ->
  (forall k, (i <= k <= j)%nat -> signal (nth k (m_signals b) noSignal) = 1%Z) ->
  let before := loopAfter b i in
  currentSignal before <> 1%Z ->
  m_position (self before) = 0%Z ->
  trunc (m_cash (self before) / executionPrice (self before) i)%D = 0%Z ->
  let after := loopAfter b (S j) in
  m_trades (self after) = m_trades (self before) /\
  m_position (self after) = 0%Z /\
  m_cash (self after) = m_cash (self before) /\
  currentSignal after = 1%Z /\
  equity (nth j (m_equity (runBacktest b)) noEquityPoint) = m_cash (self before).
Proof.
  intros Hj Hsig before Htr Hflat Hno after.
  destruct (failed_buy_state b i Hflat Hno j (proj1 Hj) Hsig) as (T & P & C & Sg).
  repeat split; auto.
  now apply failed_buy_equity.
Qed.

(** The scenario of C7: capital 50, three records at price 100 under a buy
    signal. *)
Lemma failed_buy_is_not_retried_witness :
  let b := loaded 50 0 0 (heldBuySignal 3) in
  m_trades (self (loopAfter b 3)) = [] /\
  m_position (self (loopAfter b 3)) = 0%Z /\
  m_cash (self (loopAfter b 3)) = 50 /\
  currentSignal (loopAfter b 3) = 1%Z /\
  equity (nth 2 (m_equity (runBacktest b)) noEquityPoint) = 50.
Proof.
  apply (failed_buy_is_not_retried (loaded 50 0 0 (heldBuySignal 3)) 0 2).
  - cbn. lia.
  - intros [|[|[|k]]] Hk; try reflexivity. lia.
  - discriminate.
  - reflexivity.
  - reflexivity.
Defined.

(** The scenario at any length and under any slippage [s >= 0] and latency:
    capital 50 never buys a share priced 100, and the equity path is flat at
    50. *)
Lemma short_of_cash_equity_flat (n j : nat) (s L : Q) :
  0 <= s -> (j < n)%nat ->
  let b := runBacktest (loaded 50 s L (heldBuySignal n)) in
  m_trades b = [] /\ m_position b = 0%Z /\
  equity (nth j (m_equity b) noEquityPoint) = 50.
Proof.
  intros Hs Hj. cbn zeta.
  set (b0 := loaded 50 s L (heldBuySignal n)).
  assert (m_signals b0 = heldBuySignal n) as Hrows by reflexivity.
  assert (length (m_signals b0) = n) as Hlen
      by (rewrite Hrows; apply repeat_length).
  assert (forall k, (k < n)%nat -> nth k (m_signals b0) noSignal = mkSignal "t" 100 1)
    as Hnth.
  { intros k Hk. rewrite Hrows.
    apply (repeat_spec n (mkSignal "t" 100 1)), nth_In.
    unfold heldBuySignal. now rewrite repeat_length. }
  assert (trunc (m_cash (self (loopAfter b0 0)) / executionPrice (self (loopAfter b0 0)) 0)%D
          = 0%Z) as Hno.
  { unfold executionPrice, latencyPrice.
    change (m_signals (self (loopAfter b0 0))) with (m_signals b0).
    rewrite !Hnth by lia.
    assert (forall x : Q, (if (of_int 0 <? m_latency (self (loopAfter b0 0)))%D
                           then x else x) = x) as -> by (intros x; now destruct (_ <? _)%D).
    cbn. unfold_Q. change (inject_Z 1) with 1.
    apply Qtrunc_small.
    - apply Qle_shift_div_l; lra.
    - apply Qlt_shift_div_r; lra. }
  assert (forall k, (0 <= k <= n - 1)%nat ->
            signal (nth k (m_signals b0) noSignal) = 1%Z) as Hsig
      by (intros k Hk; rewrite Hnth by lia; reflexivity).
  assert (m_signals b0 <> []) as NE
      by (intros E; rewrite E in Hlen; cbn in Hlen; lia).
  destruct (failed_buy_state b0 0 eq_refl Hno (n - 1) ltac:(lia) Hsig)
    as (T & P & _ & _).
  replace (S (n - 1)) with (length (m_signals b0)) in T, P by lia.
  rewrite <- (runBacktest_nonempty b0 NE) in T, P.
  repeat split; [exact T|exact P|].
  rewrite (failed_buy_equity b0 0 eq_refl Hno j); [reflexivity|lia|].
  intros k Hk. apply Hsig. lia.
Qed.

(** * Degenerate inputs of the metric calculations *)

Section Degenerate.
Context {D : Type} {dbl : Double D}.
Variable dsqrt : D -> D.

Lemma downside_none (returns : list D) (acc : D * Z) :
  Forall (fun r => (r <? of_int 0)%D = false) returns ->
  fold_left downsideStep returns acc = acc.
Proof.
  intros H. revert acc. induction H as [|r returns Hr _ IH]; intros acc.
  - reflexivity.
  - cbn [fold_left]. unfold downsideStep at 2. now rewrite Hr.
Qed.

Lemma calculateSortinoRatio_zero (returns : list D) (riskFreeRate : D) :
  Forall (fun r => (r <? of_int 0)%D = false) returns ->
  calculateSortinoRatio dsqrt returns riskFreeRate = of_int 0.
Proof.
  intros H. unfold calculateSortinoRatio. destruct returns; [reflexivity|].
  now rewrite (downside_none _ _ H).
Qed.

Lemma getResults_no_equity (b : Backtester D) :
  m_equity b = [] -> getResults dsqrt b = BacktestResults_new.
Proof. intros H. unfold getResults. now rewrite H. Qed.

End Degenerate.

(** * The engine against [TradeSimulator::simulateTrades] *)

Section Sizing.
Context {D : Type} {dbl : Double D}.

Lemma simulateStep_fixedNotional (this : TradeSimulator D)
    (signals : list (Signal D)) (st : SimLoop D) (i : nat) :
  Forall fixedNotional (trades st) ->
  Forall fixedNotional (trades (simulateStep this signals st i)).
Proof.
  intros H. unfold simulateStep.
  destruct (negb _); [|exact H].
  destruct (_ && _)%bool.
  - cbn. apply Forall_app. split; [exact H|].
    constructor; [|constructor]. intros _. reflexivity.
  - destruct (_ && _)%bool; [|exact H].
    cbn. apply Forall_app. split; [exact H|].
    constructor; [|constructor]. intros E. discriminate E.
Qed.

Lemma simulateTrades_fixedNotional (this : TradeSimulator D)
    (signals : list (Signal D)) :
  Forall fixedNotional (simulateTrades this signals).
Proof.
  unfold simulateTrades. destruct signals as [|r signals]; [constructor|].
  generalize (seq 0 (length (r :: signals))). intros idx.
  assert (Forall fixedNotional (trades (mkSimLoop (D := D) [] 0 0))) as H
      by constructor.
  revert H. generalize (mkSimLoop (D := D) [] 0 0).
  induction idx as [|i idx IH]; intros st H; [exact H|].
  cbn [fold_left]. apply IH. now apply simulateStep_fixedNotional.
Qed.

(** The engine sizes a buy from the cash the object holds. *)
Lemma executeTrade_all_in (b : Backtester D) (i : nat) (t : Trade D) :
  m_trades (executeTrade b i) = m_trades b ++ [t] ->
  action t = "BUY"%string ->
  shares t = trunc (m_cash b / tr_price t)%D.
Proof.
  unfold executeTrade.
  destruct (_ && _)%bool; [destruct (0 <? _)%Z|destruct (_ && _)%bool]; cbn.
  - intros E%app_inv_head. injection E as <-. reflexivity.
  - intros E. apply (f_equal (@length _)) in E.
    rewrite length_app in E. cbn in E. lia.
  - intros E%app_inv_head. injection E as <-. discriminate.
  - intros E. apply (f_equal (@length _)) in E.
    rewrite length_app in E. cbn in E. lia.
Qed.

End Sizing.

(** C10: the helper sizes every buy as the truncated quotient of 10000 by
    the buy price, the engine as the truncated quotient of the cash it holds
    by the execution price, and on the same records under the same slippage
    and latency the two trade logs differ: after a round trip from 100 to
    200 the engine buys 200 shares, the helper 100. *)
Theorem engine_and_helper_diverge :
  (forall (this : TradeSimulator Q) (signals : list (Signal Q)) (t : Trade Q),
      In t (simulateTrades this signals) -> action t = "BUY"%string ->
      shares t = Qtrunc (10000 / tr_price t)) /\
  (forall (b : Backtester Q) (i : nat) (t : Trade Q),
      m_trades (executeTrade b i) = m_trades b ++ [t] ->
      action t = "BUY"%string ->
      shares t = Qtrunc (m_cash b / tr_price t)) /\
  (exists (s L : Q) (rows : list (Signal Q)),
      let engine := m_trades (runBacktest (loaded 10000 s L rows)) in
      let helper := simulateTrades (mkTradeSimulator s L) rows in
      engine <> helper /\
      map (@shares Q) engine = [100; 100; 200]%Z /\
      map (@shares Q) helper = [100; 100; 100]%Z).
Proof.
  split; [|split].
  - intros this signals t Hin.
    pose proof (simulateTrades_fixedNotional this signals) as H.
    rewrite Forall_forall in H. exact (H t Hin).
  - intros b i t. exact (executeTrade_all_in b i t).
  - exists 0, 0, roundTrip. cbn zeta.
    split; [|split; reflexivity].
    intros E. apply (f_equal (map (@shares Q))) in E. vm_compute in E.
    discriminate E.
Qed.

(** * The worked scenario *)

(** In exact arithmetic: capital 10000, no slippage, no latency, prices
    [100,100,110,110,90] under the signals [0,1,1,0,0] give a BUY of 100
    shares at 100, then a SELL of 100 shares at 110, and nothing else; the
    final equity is 11000 and the return is 10 percent. *)
Lemma scenario_in_exact_arithmetic (dsqrt : Q -> Q) :
  let b := runBacktest (loaded 10000 0 0 scenario) in
  m_trades b =
    [mkTrade "t1" "BUY" 100 100 10000; mkTrade "t3" "SELL" 100 110 11000] /\
  equity (last (m_equity b) noEquityPoint) == 11000 /\
  finalEquity (getResults dsqrt b) == 11000 /\
  finalReturn (getResults dsqrt b) == 10 /\
  totalTrades (getResults dsqrt b) = 2%Z.
Proof.
  cbn zeta. repeat split; vm_compute; reflexivity.
Qed.

(** * The scenarios in binary64 *)

Module Binary64Facts.
Import PrimFloat Binary64.
Local Open Scope float_scope.

(** C4, as stated, fails: on the scenario's inputs the return
    [getResults] reports does not compare equal to 10.0. *)
Lemma scenario_return_is_not_10 :
  ~ (let b := runBacktest (loaded 10000 0 0 scenario64) in
     m_trades b =
       [mkTrade "t1" "BUY" 100 100 10000; mkTrade "t3" "SELL" 100 110 11000] /\
     equity (last (m_equity b) noEquityPoint) = 11000 /\
     (finalReturn (getResults sqrt b) =? 10) = true).
Proof.
  intros (_ & _ & H). vm_compute in H. discriminate H.
Qed.

(** C4, amended: capital 10000, no slippage, no latency, prices
    [100,100,110,110,90] under the signals [0,1,1,0,0]: a BUY of 100 shares
    at 100, then a SELL of 100 shares at 110, and nothing else; the final
    equity is 11000, and the return [getResults] reports is the [double]
    10.000000000000009, five units in the last place above 10: the rounding
    of 11000/10000 carried through [- 1.0] and [* 100.0]. *)
Theorem scenario_buy_then_sell :
  let b := runBacktest (loaded 10000 0 0 scenario64) in
  let results := getResults sqrt b in
  m_trades b =
    [mkTrade "t1" "BUY" 100 100 10000; mkTrade "t3" "SELL" 100 110 11000] /\
  equity (last (m_equity b) noEquityPoint) = 11000 /\
  finalEquity results = 11000 /\
  finalReturn results = 0x1.4000000000005p+3 /\
  (10 <? finalReturn results) = true /\
  (finalReturn results <? 10 + 0x1p-46) = true /\
  totalTrades results = 2%Z.
Proof. vm_compute. repeat split. Qed.

(** With capital 15294.72 and slippage 1 a buy at 68.28 costs 136.56 a
    share; the quotient rounds to 112 and the cost of 112 shares rounds to
    more than the cash.  The sell at slippage 1 brings nothing in, the
    equity stays negative and the drawdown is above 100. *)
Lemma overdrawn_binary64 :
  let b := runBacktest (loaded overdrawnCapital64 1 0 overdrawn64) in
  map (@shares float) (m_trades b) = [112; 112]%Z /\
  (m_cash b <? 0) = true /\
  (equity (last (m_equity b) noEquityPoint) <? 0) = true /\
  (100 <? last (m_drawdowns b) 0) = true.
Proof. vm_compute. repeat split. Qed.


(** The amended bounds of C6 on the same run: both drawdowns are
    non-negative, and the first, whose equity is non-negative, is at most
    100. *)
Lemma overdrawn_bounds_binary64 :
  let b := runBacktest (loaded overdrawnCapital64 1 0 overdrawn64) in
  forallb (fun d => 0 <=? d) (m_drawdowns b) = true /\
  map (fun p => 0 <=? equity p) (m_equity b) = [true; false] /\
  map (fun d => d <=? 100) (m_drawdowns b) = [true; false].
Proof. vm_compute. repeat split. Qed.

(** The return series 0.1, 0.1, 0.1 has a population standard deviation of
    zero, but the mean [calculateSharpeRatio] computes is not 0.1, the
    deviation it computes is not 0, and the ratio it returns is about
    1.14e17. *)
Lemma constant_returns_sharpe_binary64 :
  calculateSharpeRatio sqrt [tenth; tenth; tenth] 0 = 0x1.96632cbc9f781p+56.
Proof. vm_compute. reflexivity. Qed.


(** A series of zero returns in binary64. *)
Lemma zero_returns_sharpe_binary64 :
  calculateSharpeRatio sqrt [0; 0; 0] tenth = 0 /\
  calculateSharpeRatio sqrt [0; -0; 0] tenth = 0.
Proof. vm_compute. split; reflexivity. Qed.

(** The seeds of the two drawdown calculations differ in binary64 as they
    do in exact arithmetic (slippage 1/64). *)
Lemma seeds_differ_binary64 :
  let b := runBacktest (loaded 10000 0x1p-6 0 oneBuy64) in
  equity (last (m_equity b) noEquityPoint) = 9846.875 /\
  ltb 1.5 (max_element (m_drawdowns b)) = true /\
  calculateMaxDrawdown (map (@equity float) (m_equity b)) = 0.
Proof. vm_compute. repeat split. Qed.

(** Capital 50 against a price of 100. *)
Lemma short_of_cash_binary64 :
  let b := runBacktest (loaded 50 0 0 (heldBuySignal64 3)) in
  m_trades b = [] /\ m_position b = 0%Z /\
  map (@equity float) (m_equity b) = [50; 50; 50].
Proof. vm_compute. repeat split. Qed.

(** Two runs, one equity point, two returns. *)
Lemma returns_outgrow_equity_binary64 :
  let b := runBacktest (runBacktest (loaded 10000 0 0 oneBuy64)) in
  length (m_equity b) = 1%nat /\ length (m_returns b) = 2%nat.
Proof. vm_compute. repeat split. Qed.

End Binary64Facts.

(** * Further properties of the engine, for every number type *)

Section EngineOutputs.
Context {D : Type} {dbl : Double D}.

Lemma firstn_snoc_nth {A : Type} (l : list A) (k : nat) (d : A) :
  (k < length l)%nat -> firstn (S k) l = firstn k l ++ [nth k l d].
Proof.
  revert k. induction l as [|a l IH]; intros k Hk; [cbn in Hk; lia|].
  destruct k as [|k]; [reflexivity|].
  cbn [nth]. cbn in Hk. rewrite !firstn_cons, (IH k) by lia.
  reflexivity.
Qed.

Lemma loopAfter_equity_timestamps (b : Backtester D) (k : nat) :
  (k <= length (m_signals b))%nat ->
  map (@eq_timestamp D) (m_equity (self (loopAfter b k))) =
  map (@timestamp D) (firstn k (m_signals b)).
Proof.
  induction k as [|k IH]; intros Hk; [reflexivity|].
  rewrite loopAfter_S.
  destruct (loopBody_fields (loopAfter b k) k)
    as (_ & _ & _ & _ & _ & _ & _ & F8 & _).
  destruct (loopAfter_params b k) as (_ & _ & _ & P4).
  rewrite F8, P4, map_app, IH, (firstn_snoc_nth _ _ noSignal), map_app by lia.
  reflexivity.
Qed.

(** What one [executeTrade] adds to the log. *)
Lemma executeTrade_log (b : Backtester D) (i : nat) :
  (i < length (m_signals b))%nat ->
  m_trades (executeTrade b i) = m_trades b \/
  exists t, m_trades (executeTrade b i) = m_trades b ++ [t] /\
            wellFormed (m_signals b) t.
Proof.
  intros Hi. unfold executeTrade.
  assert (In (timestamp (nth i (m_signals b) noSignal))
             (map (@timestamp D) (m_signals b))) as Hts
      by (apply in_map, nth_In, Hi).
  destruct (_ && _)%bool.
  - destruct (Z.ltb_spec 0 (trunc (m_cash b / executionPrice b i)%D)) as [Sh|Sh];
      [|now left].
    right. eexists. split; [reflexivity|].
    unfold wellFormed. cbn. auto.
  - destruct (_ && _)%bool eqn:Sell; [|now left].
    apply andb_prop in Sell as [_ Pp%Z.ltb_lt].
    right. eexists. split; [reflexivity|].
    unfold wellFormed. cbn. auto.
Qed.

Lemma loopAfter_trades_wellFormed (b : Backtester D) (k : nat) :
  (k <= length (m_signals b))%nat ->
  Forall (wellFormed (m_signals b)) (m_trades (self (loopAfter b k))) /\
  (length (m_trades (self (loopAfter b k))) <= k)%nat.
Proof.
  induction k as [|k IH]; intros Hk; [cbn; split; [constructor|lia]|].
  destruct IH as [IHf IHl]; [lia|].
  rewrite loopAfter_S.
  destruct (loopBody_fields (loopAfter b k) k)
    as (_ & _ & _ & _ & _ & _ & F7 & _).
  destruct (loopAfter_params b k) as (_ & _ & _ & P4).
  rewrite F7. unfold afterTransition.
  destruct (negb _); [|split; [exact IHf|lia]].
  destruct (executeTrade_log (self (loopAfter b k)) k) as [->|(t & -> & Ht)];
    [rewrite P4; lia|split; [exact IHf|lia]|].
  rewrite P4 in Ht. split.
  - apply Forall_app. split; [exact IHf|]. now constructor.
  - rewrite length_app. cbn. lia.
Qed.

End EngineOutputs.

Lemma trades_length_bound {D : Type} {dbl : Double D} (b : Backtester D) :
  m_signals b <> [] ->
  (length (m_trades (runBacktest b)) <= length (m_signals b))%nat /\
  length (m_equity (runBacktest b)) = length (m_signals b).
Proof.
  intros NE. rewrite (runBacktest_nonempty b NE). split.
  - now apply loopAfter_trades_wellFormed.
  - apply loopAfter_lengths.
Qed.

(** X1: a run records one equity point per loaded record, in the order of
    the records and under their timestamps, and one drawdown per record. *)
Theorem equity_path_follows_records {D : Type} {dbl : Double D}
    (b : Backtester D) :
  m_signals b <> [] ->
  map (@eq_timestamp D) (m_equity (runBacktest b)) =
    map (@timestamp D) (m_signals b) /\
  length (m_drawdowns (runBacktest b)) = length (m_signals b).
Proof.
  intros NE. rewrite (runBacktest_nonempty b NE). split.
  - rewrite loopAfter_equity_timestamps, firstn_all by lia. reflexivity.
  - apply loopAfter_lengths.
Qed.

Lemma equity_path_follows_records_witness :
  map (@eq_timestamp Q) (m_equity (runBacktest (loaded 10000 0 0 scenario))) =
    ["t0"; "t1"; "t2"; "t3"; "t4"]%string /\
  length (m_drawdowns (runBacktest (loaded 10000 0 0 scenario))) = 5%nat.
Proof.
  apply (equity_path_follows_records (loaded 10000 0 0 scenario)).
  discriminate.
Defined.

(** X2: every trade a run records is a BUY or a SELL of a positive number
    of shares, its value is that number of shares times its price, its
    timestamp is the timestamp of a loaded record, and the log holds at most
    one trade per record. *)
Theorem trades_are_well_formed {D : Type} {dbl : Double D}
    (b : Backtester D) :
  m_signals b <> [] ->
  Forall (wellFormed (m_signals b)) (m_trades (runBacktest b)) /\
  (length (m_trades (runBacktest b)) <= length (m_signals b))%nat.
Proof.
  intros NE. rewrite (runBacktest_nonempty b NE).
  now apply loopAfter_trades_wellFormed.
Qed.

Lemma trades_are_well_formed_witness :
  let log := m_trades (runBacktest (loaded 10000 0 0 scenario)) in
  Forall (wellFormed scenario) log /\ (length log <= 5)%nat.
Proof.
  apply (trades_are_well_formed (loaded 10000 0 0 scenario)).
  discriminate.
Defined.

(** ** Every SELL closes the BUY before it *)

Section ClosedPositions.
Context {D : Type} {dbl : Double D}.

Lemma openShares_snoc (log : list (Trade D)) (t : Trade D) :
  openShares (log ++ [t]) =
  if String.eqb (action t) "BUY" then shares t else 0%Z.
Proof. unfold openShares. now rewrite rev_unit. Qed.

Lemma closesEachBuy_one (u : Trade D) : closesEachBuy [u].
Proof. intros [|[|i]] t v H1 H2; discriminate. Qed.

Lemma closesEachBuy_snoc (log : list (Trade D)) (t u : Trade D) :
  closesEachBuy (log ++ [t]) ->
  (action t = "BUY"%string ->
   action u = "SELL"%string /\ shares u = shares t) ->
  closesEachBuy ((log ++ [t]) ++ [u]).
Proof.
  intros Hlog Hlast i x y Hx Hy Hbuy.
  assert (length (log ++ [t]) = S (length log)) as Hlen
      by (rewrite length_app; cbn; lia).
  destruct (Nat.lt_ge_cases (S i) (length (log ++ [t]))) as [Hin|Hout].
  - rewrite nth_error_app1 in Hx, Hy by lia. exact (Hlog i x y Hx Hy Hbuy).
  - assert (nth_error ((log ++ [t]) ++ [u]) (S i) <> None) as Hsome by congruence.
    apply nth_error_Some in Hsome. rewrite length_app in Hsome. cbn in Hsome.
    assert (i = length log) as -> by lia.
    rewrite nth_error_app1, nth_error_app2, Nat.sub_diag in Hx by lia.
    rewrite nth_error_app2, Hlen, Nat.sub_diag in Hy by lia.
    cbn in Hx, Hy. injection Hx as <-. injection Hy as <-. now apply Hlast.
Qed.

Lemma executeTrade_paired (b : Backtester D) (i : nat) :
  paired b -> paired (executeTrade b i).
Proof.
  intros (Hpos & Hcl & Hsh). unfold executeTrade.
  destruct (_ && _)%bool eqn:Buy.
  - apply andb_prop in Buy as [_ P0%Z.eqb_eq].
    destruct (Z.ltb_spec 0 (trunc (m_cash b / executionPrice b i)%D)) as [Sh|Sh];
      [|exact (conj Hpos (conj Hcl Hsh))].
    unfold paired. cbn. rewrite openShares_snoc. cbn.
    split; [reflexivity|]. split; [|apply Forall_app; split; auto].
    destruct (m_trades b) as [|t0 log0] using rev_ind;
      [apply closesEachBuy_one|].
    apply closesEachBuy_snoc; [exact Hcl|]. intros Hbuy. exfalso.
    rewrite openShares_snoc, Hbuy in Hpos. cbn in Hpos.
    apply Forall_app in Hsh as [_ Hsh]. inversion Hsh as [|? ? Ht0 _]. lia.
  - clear Buy. destruct (_ && _)%bool eqn:Sell; [|exact (conj Hpos (conj Hcl Hsh))].
    apply andb_prop in Sell as [_ Pp%Z.ltb_lt].
    unfold paired. cbn. rewrite openShares_snoc. cbn.
    split; [reflexivity|]. split; [|apply Forall_app; split; auto].
    destruct (m_trades b) as [|t0 log0] using rev_ind;
      [apply closesEachBuy_one|].
    apply closesEachBuy_snoc; [exact Hcl|]. intros _. cbn.
    split; [reflexivity|].
    rewrite openShares_snoc in Hpos.
    destruct (String.eqb (action t0) "BUY"); [exact Hpos|lia].
Qed.

Lemma loopAfter_paired (b : Backtester D) (k : nat) :
  paired (self (loopAfter b k)).
Proof.
  induction k as [|k IH].
  - unfold paired. cbn. split; [reflexivity|]. split; [|constructor].
    intros [|i] t u H; discriminate.
  - rewrite loopAfter_S.
    destruct (loopBody_fields (loopAfter b k) k)
      as (_ & _ & _ & _ & _ & F6 & F7 & _).
    unfold paired. rewrite F6, F7.
    unfold afterTransition. destruct (negb _); [|exact IH].
    now apply executeTrade_paired.
Qed.

End ClosedPositions.

(** X3: in the trade log of a run, the trade after a BUY is a SELL of
    exactly the shares that BUY bought: a position is never closed in part
    and never added to. *)
Theorem sell_closes_the_whole_position {D : Type} {dbl : Double D}
    (C s L : D) (rows : list (Signal D)) :
  closesEachBuy (m_trades (runBacktest (loaded C s L rows))).
Proof.
  destruct rows as [|r rows].
  - intros [|i] t u H; discriminate.
  - rewrite runBacktest_nonempty by discriminate. apply loopAfter_paired.
Qed.

Lemma sell_closes_the_whole_position_witness :
  closesEachBuy (m_trades (runBacktest (loaded 10000 0 0 roundTrip))).
Proof.
  apply (sell_closes_the_whole_position 10000 0 0 roundTrip).
Defined.

(** ** A run after a load *)

(** X4: the trade log, the equity path and the drawdown series of a run
    after a successful load of at least one row depend only on the rows and
    on the object's capital, slippage and latency, whatever the object
    loaded or ran before. *)
Theorem run_after_load_forgets_history {D : Type} {dbl : Double D}
    (b : Backtester D) (rows : list (Signal D)) :
  rows <> [] ->
  let fresh := loaded (m_initialCapital b) (m_slippage b) (m_latency b) rows in
  let again := fst (loadSignalsFromCSV (Some rows) b) in
  m_trades (runBacktest again) = m_trades (runBacktest fresh) /\
  m_equity (runBacktest again) = m_equity (runBacktest fresh) /\
  m_drawdowns (runBacktest again) = m_drawdowns (runBacktest fresh).
Proof.
  intros NE fresh again.
  assert (m_signals again = rows) as Ha by reflexivity.
  assert (m_signals fresh = rows) as Hf by reflexivity.
  rewrite (runBacktest_nonempty again), (runBacktest_nonempty fresh)
    by congruence.
  rewrite Ha, Hf.
  apply agree_fields, loopAfter_agree, loopInit_agree; reflexivity.
Qed.

Lemma run_after_load_forgets_history_witness :
  let used := runBacktest (loaded 10000 0 0 scenario) in
  let fresh :=
    loaded (m_initialCapital used) (m_slippage used) (m_latency used) roundTrip in
  let again := fst (loadSignalsFromCSV (Some roundTrip) used) in
  m_trades (runBacktest again) = m_trades (runBacktest fresh) /\
  m_equity (runBacktest again) = m_equity (runBacktest fresh) /\
  m_drawdowns (runBacktest again) = m_drawdowns (runBacktest fresh).
Proof.
  apply (run_after_load_forgets_history
           (runBacktest (loaded 10000 0 0 scenario)) roundTrip).
  discriminate.
Defined.

(** ** The return series *)

Section Returns.
Context {D : Type} {dbl : Double D}.
Variable b : Backtester D.
Hypothesis no_returns_yet : m_returns b = [].

Lemma loopAfter_returns_prefix (k n : nat) :
  (k <= n)%nat ->
  exists rest,
    m_returns (self (loopAfter b n)) = m_returns (self (loopAfter b k)) ++ rest.
Proof.
  induction 1 as [|n _ [rest IH]].
  - exists []. now rewrite app_nil_r.
  - rewrite loopAfter_S.
    destruct (loopBody_fields (loopAfter b n) n)
      as (_ & _ & _ & _ & _ & _ & _ & _ & _ & F10 & _).
    rewrite F10, IH, <- app_assoc. eauto.
Qed.

(** The return iteration [i] pushes stays at index [i]. *)
Lemma returns_nth_loopAfter (i n : nat) (d : D) :
  (i < n)%nat ->
  nth i (m_returns (self (loopAfter b n))) d =
  (markToMarket (afterTransition (loopAfter b i) i) i
   / lastEquity (loopAfter b i) - of_int 1)%D.
Proof.
  intros Hi.
  destruct (loopAfter_returns_prefix (S i) n Hi) as [rest ->].
  rewrite loopAfter_S.
  destruct (loopBody_fields (loopAfter b i) i)
    as (_ & _ & _ & _ & _ & _ & _ & _ & _ & F10 & _).
  destruct (loopAfter_lengths b i) as (_ & _ & L).
  rewrite no_returns_yet in L. cbn in L.
  rewrite F10, <- app_assoc, app_nth2 by lia.
  now rewrite L, Nat.sub_diag.
Qed.

(** The local [lastEquity] is the initial capital before the first
    iteration and the last equity point afterwards. *)
Lemma lastEquity_loopAfter (i n : nat) :
  (i < n)%nat ->
  lastEquity (loopAfter b i) =
  previousEquity (m_initialCapital b) (m_equity (self (loopAfter b n))) i.
Proof.
  intros Hi. destruct i as [|j]; [reflexivity|].
  cbn [previousEquity].
  rewrite (equity_nth_loopAfter b j n) by lia. cbn [equity].
  rewrite loopAfter_S.
  now destruct (loopBody_fields (loopAfter b j) j)
    as (_ & _ & _ & _ & _ & _ & _ & _ & _ & _ & F11 & _).
Qed.

End Returns.

(** X5: on an object that has not run before, the return recorded at step
    [i] is the equity of step [i] divided by the equity of step [i - 1],
    minus 1; the first return is measured against the initial capital. *)
Theorem returns_measure_equity_steps {D : Type} {dbl : Double D}
    (b : Backtester D) (i : nat) :
  m_returns b = [] ->
  (i < length (m_signals b))%nat ->
  let path := m_equity (runBacktest b) in
  nth i (m_returns (runBacktest b)) (of_int 0) =
  (equity (nth i path noEquityPoint)
   / previousEquity (m_initialCapital b) path i - of_int 1)%D.
Proof.
  intros Hr Hi path. subst path.
  assert (m_signals b <> []) as NE
      by (destruct (m_signals b); [cbn in Hi; lia|easy]).
  rewrite (runBacktest_nonempty b NE).
  rewrite (returns_nth_loopAfter b Hr i _ _ Hi).
  rewrite (equity_nth_loopAfter b i _ Hi). cbn [equity].
  now rewrite (lastEquity_loopAfter b i _ Hi).
Qed.

Lemma returns_measure_equity_steps_witness :
  let b := loaded 10000 0 0 scenario in
  let path := m_equity (runBacktest b) in
  nth 2 (m_returns (runBacktest b)) (of_int 0) =
  (equity (nth 2 path noEquityPoint)
   / previousEquity (m_initialCapital b) path 2 - of_int 1)%D.
Proof.
  apply (returns_measure_equity_steps (loaded 10000 0 0 scenario) 2).
  - reflexivity.
  - cbn. lia.
Defined.

(** X6: [m_returns] is never cleared: after [runs] runs of an object loaded
    once with [n] rows it holds [runs * n] returns, against the [n] equity
    points of the last run. *)
Theorem returns_accumulate_across_runs {D : Type} {dbl : Double D}
    (C s L : D) (rows : list (Signal D)) (runs : nat) :
  rows <> [] ->
  (0 < runs)%nat ->
  let b := Nat.iter runs runBacktest (loaded C s L rows) in
  length (m_returns b) = (runs * length rows)%nat /\
  length (m_equity b) = length rows.
Proof.
  intros NE Hruns b.
  destruct (returns_length_reruns C s L rows runs NE) as (_ & R & E).
  split; [exact R|exact (E Hruns)].
Qed.

Lemma returns_accumulate_across_runs_witness :
  let b := Nat.iter 3 runBacktest (loaded 10000 0 0 scenario) in
  length (m_returns b) = (3 * length scenario)%nat /\
  length (m_equity b) = length scenario.
Proof.
  apply (returns_accumulate_across_runs 10000 0 0 scenario 3).
  - discriminate.
  - lia.
Defined.

(** The fields of [getResults] on a non-empty equity path. *)
Lemma getResults_fields {D : Type} {dbl : Double D} (dsqrt : D -> D)
    (b : Backtester D) :
  m_equity b <> [] ->
  let results := getResults dsqrt b in
  finalEquity results = equity (last (m_equity b) noEquityPoint) /\
  finalReturn results =
    ((equity (last (m_equity b) noEquityPoint) / m_initialCapital b - of_int 1)
     * of_int 100)%D /\
  maxDrawdown results = max_element (m_drawdowns b) /\
  totalTrades results = Z.of_nat (length (m_trades b)).
Proof.
  intros NE. unfold getResults.
  destruct (m_equity b) as [|p ps]; [easy|].
  destruct (fold_left _ (m_returns b) _) as [totalReturn totalRisk].
  cbn. auto.
Qed.

(** ** The host entry point *)

Lemma run_backtest_loaded {D : Type} {dbl : Double D} (dsqrt : D -> D)
    (r : Signal D) (rows : list (Signal D)) (C s L : D) :
  run_backtest dsqrt (Some (r :: rows)) C s L =
  Some (getResults dsqrt (runBacktest (loaded C s L (r :: rows)))).
Proof. reflexivity. Qed.

(** X7: [run_backtest] throws exactly when the file cannot be opened or
    yields no row; otherwise it returns the results of one run of a fresh
    object, whose trade count is at most the number of rows. *)
Theorem run_backtest_throws_or_reports {D : Type} {dbl : Double D}
    (dsqrt : D -> D) (signalsFile : option (list (Signal D))) (C s L : D) :
  (run_backtest dsqrt signalsFile C s L = None <->
   signalsFile = None \/ signalsFile = Some []) /\
  (forall rows results,
      signalsFile = Some rows ->
      run_backtest dsqrt signalsFile C s L = Some results ->
      results = getResults dsqrt (runBacktest (loaded C s L rows)) /\
      (0 <= totalTrades results <= Z.of_nat (length rows))%Z).
Proof.
  split.
  - destruct signalsFile as [[|r rows]|].
    + split; [now right|reflexivity].
    + rewrite run_backtest_loaded. split; [discriminate|].
      intros [H|H]; discriminate.
    + split; [now left|reflexivity].
  - intros rows results -> Hrun.
    destruct rows as [|r rows]; [discriminate|].
    rewrite run_backtest_loaded in Hrun. injection Hrun as <-.
    split; [reflexivity|].
    destruct (trades_length_bound (loaded C s L (r :: rows))) as [Hlen Heq];
      [discriminate|].
    destruct (getResults_fields dsqrt (runBacktest (loaded C s L (r :: rows))))
      as (_ & _ & _ & ->).
    { intros E. rewrite E in Heq. discriminate Heq. }
    change (m_signals (loaded C s L (r :: rows))) with (r :: rows) in Hlen.
    clear Heq. revert Hlen.
    generalize (length (m_trades (runBacktest (loaded C s L (r :: rows))))).
    generalize (length (r :: rows)). intros n m Hlen. lia.
Qed.

(** * Further properties of the reported figures *)

(** ** The reported maximum drawdown *)

Lemma fold_std_max_In {D : Type} {dbl : Double D} (v : list D) (x : D) :
  In (fold_left std_max v x) (x :: v).
Proof.
  revert x. induction v as [|a v IH]; intros x; [now left|].
  cbn [fold_left]. destruct (IH (std_max x a)) as [E|Hin].
  - rewrite <- E. unfold std_max. destruct (_ <? _)%D; [right; now left|now left].
  - right. now right.
Qed.

Lemma fold_std_max_upper (v : list Q) (x d : Q) :
  In d (x :: v) -> d <= fold_left std_max v x.
Proof.
  revert x d. induction v as [|a v IH]; intros x d Hin.
  - destruct Hin as [->|[]]. apply Qle_refl.
  - cbn [fold_left].
    assert (x <= std_max x a /\ a <= std_max x a) as [Hx Ha].
    { destruct (std_max_Q_cases x a) as [[H ->]|[H ->]]; split;
        try apply Qle_refl; [now apply Qlt_le_weak|exact H]. }
    assert (std_max x a <= fold_left std_max v (std_max x a)) as Hm
        by (apply IH; now left).
    destruct Hin as [->|[->|Hin]].
    + now apply Qle_trans with (std_max d a).
    + now apply Qle_trans with (std_max x d).
    + apply IH. now right.
Qed.

(** X9: the maximum drawdown [getResults] reports after a run is one of the
    drawdowns of the series and no drawdown of the series exceeds it. *)
Theorem reported_max_drawdown_is_the_maximum (dsqrt : Q -> Q)
    (b : Backtester Q) :
  m_signals b <> [] ->
  let series := m_drawdowns (runBacktest b) in
  let reported := maxDrawdown (getResults dsqrt (runBacktest b)) in
  In reported series /\ forall d, In d series -> d <= reported.
Proof.
  intros NE series reported. subst series reported.
  assert (m_equity (runBacktest b) <> []) as NEq.
  { intros E. apply (f_equal (@length _)) in E.
    rewrite equity_length_runBacktest in E by assumption.
    destruct (m_signals b); [easy|discriminate]. }
  destruct (getResults_fields dsqrt (runBacktest b) NEq) as (_ & _ & -> & _).
  pose proof (drawdowns_length_runBacktest b NE) as Hlen.
  destruct (m_drawdowns (runBacktest b)) as [|x v].
  - destruct (m_equity (runBacktest b)); [easy|discriminate].
  - cbn [max_element]. split; [apply fold_std_max_In|].
    intros d. apply fold_std_max_upper.
Qed.

Lemma reported_max_drawdown_is_the_maximum_witness :
  let series := m_drawdowns (runBacktest (loaded 10000 0 0 riseAndFall)) in
  let reported :=
    maxDrawdown (getResults Qsqrt_floor (runBacktest (loaded 10000 0 0 riseAndFall))) in
  In reported series /\ forall d, In d series -> d <= reported.
Proof.
  apply (reported_max_drawdown_is_the_maximum Qsqrt_floor
           (loaded 10000 0 0 riseAndFall)).
  discriminate.
Defined.

(** ** [calculateMaxDrawdown] *)

Lemma maxDrawdown_fold_percent (values : list Q) (m p : Q) :
  0 <= m <= 100 -> 0 < p -> Forall (fun e => 0 < e) values ->
  0 <= fst (fold_left maxDrawdownStep values (m, p)) <= 100.
Proof.
  revert m p. induction values as [|v values IH]; intros m p Hm Hp Hpos;
    [exact Hm|].
  inversion Hpos as [|? ? Hv Hrest]; subst.
  cbn [fold_left]. unfold maxDrawdownStep at 2. unfold_Q.
  set (p' := if Qlt_bool p v then v else p).
  assert (0 < p' /\ v <= p') as [Hp' Hvp].
  { subst p'. destruct (Qlt_bool_spec p v) as [H|H]; split; auto;
      [apply Qle_refl|now apply Qnot_lt_le]. }
  apply IH; [|exact Hp'|exact Hrest].
  assert (0 <= (p' - v) / p') as H0 by (apply Qle_shift_div_l; [exact Hp'|lra]).
  assert ((p' - v) / p' <= 1) as H1 by (apply Qle_shift_div_r; [exact Hp'|lra]).
  change (inject_Z 100) with 100.
  destruct (std_max_Q_cases m ((p' - v) / p' * 100)) as [[_ ->]|[_ ->]]; lra.
Qed.

(** X11: on positive equity values [calculateMaxDrawdown] returns a
    percentage: a value between 0 and 100. *)
Theorem max_drawdown_is_a_percentage (equityValues : list Q) :
  Forall (fun e => 0 < e) equityValues ->
  0 <= calculateMaxDrawdown equityValues <= 100.
Proof.
  intros Hpos. unfold calculateMaxDrawdown.
  destruct equityValues as [|v0 rest] eqn:E;
    [split; discriminate|].
  apply maxDrawdown_fold_percent;
    [split; discriminate| |exact Hpos].
  now inversion Hpos.
Qed.

Lemma max_drawdown_is_a_percentage_witness :
  0 <= calculateMaxDrawdown [100; 110; 90; 95] <= 100.
Proof.
  apply (max_drawdown_is_a_percentage [100; 110; 90; 95]).
  repeat constructor.
Defined.

Lemma maxDrawdown_fold_rising (values : list Q) (m p : Q) :
  m == 0 -> nondecreasing values ->
  match values with [] => True | v :: _ => p <= v end ->
  fst (fold_left maxDrawdownStep values (m, p)) == 0.
Proof.
  revert m p. induction values as [|v values IH]; intros m p Hm Hnd Hp;
    [exact Hm|].
  destruct Hnd as [Hhead Hnd].
  cbn [fold_left]. unfold maxDrawdownStep at 2. unfold_Q.
  assert ((if Qlt_bool p v then v else p) == v) as Hpeak.
  { destruct (Qlt_bool_spec p v) as [H|H]; [reflexivity|].
    apply Qle_antisym; [exact Hp|now apply Qnot_lt_le]. }
  set (p' := if Qlt_bool p v then v else p) in *.
  assert ((p' - v) / p' * inject_Z 100 == 0) as Hdd.
  { rewrite Hpeak. unfold Qminus. rewrite Qplus_opp_r. unfold Qdiv.
    now rewrite !Qmult_0_l. }
  apply IH; [|exact Hnd|].
  - rewrite Hdd, Hm. unfold std_max. unfold_Q. now destruct (Qlt_bool 0 0).
  - destruct values as [|w values]; [exact I|].
    destruct (Qlt_bool_spec p v) as [H|H]; subst p'; [exact Hhead|].
    now apply Qle_trans with v.
Qed.

(** X12: [calculateMaxDrawdown] is 0 on an equity path that never falls. *)
Theorem max_drawdown_of_rising_path_is_zero (equityValues : list Q) :
  nondecreasing equityValues ->
  calculateMaxDrawdown equityValues == 0.
Proof.
  intros Hnd. unfold calculateMaxDrawdown.
  destruct equityValues as [|v0 rest] eqn:E; [reflexivity|].
  apply maxDrawdown_fold_rising; [reflexivity|exact Hnd|apply Qle_refl].
Qed.

Lemma max_drawdown_of_rising_path_is_zero_witness :
  calculateMaxDrawdown [100; 100; 110; 125] == 0.
Proof.
  apply (max_drawdown_of_rising_path_is_zero [100; 100; 110; 125]).
  cbn. repeat split; discriminate.
Defined.

(** ** What a transition costs *)

Section TradeCost.
Variable b : Backtester Q.
Variable i : nat.
Hypothesis no_latency : m_latency b <= 0.
Hypothesis slippage_nonneg : 0 <= m_slippage b.
Hypothesis price_nonneg : 0 <= price (nth i (m_signals b) noSignal).
Hypothesis position_nonneg : (0 <= m_position b)%Z.

Let held : Q :=
  m_cash b + inject_Z (m_position b) * price (nth i (m_signals b) noSignal).

Lemma executionPrice_no_latency :
  executionPrice b i =
  if (signal (nth i (m_signals b) noSignal) =? 1)%Z
  then price (nth i (m_signals b) noSignal) * (1 + m_slippage b)
  else price (nth i (m_signals b) noSignal) * (1 - m_slippage b).
Proof.
  unfold executionPrice, latencyPrice. unfold_Q.
  assert (Qlt_bool (inject_Z 0) (m_latency b) = false) as ->
      by now apply Qlt_bool_false_iff.
  reflexivity.
Qed.

Lemma markToMarket_flat :
  markToMarket b i == held.
Proof.
  unfold markToMarket, held. unfold_Q.
  destruct (Z.ltb_spec 0 (m_position b)) as [H|H]; [reflexivity|].
  replace (m_position b) with 0%Z by lia. ring.
Qed.

Lemma executeTrade_cost :
  markToMarket (executeTrade b i) i <= held /\
  (m_slippage b == 0 -> markToMarket (executeTrade b i) i == held).
Proof.
  pose proof markToMarket_flat as Hflat.
  unfold executeTrade. rewrite executionPrice_no_latency.
  set (p := price (nth i (m_signals b) noSignal)) in *.
  set (s := m_slippage b) in *.
  destruct (_ && _)%bool eqn:Buy.
  - apply andb_prop in Buy as [S1%Z.eqb_eq P0%Z.eqb_eq]. rewrite S1.
    cbn [Z.eqb Pos.eqb]. unfold_Q.
    destruct (Z.ltb_spec 0 (Qtrunc (m_cash b / (p * (1 + s))))) as [Sh|Sh];
      [|split; [rewrite Hflat; apply Qle_refl|intros _; exact Hflat]].
    set (sh := Qtrunc (m_cash b / (p * (1 + s)))) in *.
    unfold markToMarket. cbn [m_position m_cash m_signals set_position set_cash set_trades].
    fold p. unfold_Q.
    destruct (Z.ltb_spec 0 sh) as [_|Sh']; [|lia].
    assert (0 < inject_Z sh) as Hsh
        by (change 0 with (inject_Z 0); now rewrite <- Zlt_Qlt).
    subst held. rewrite P0. change (inject_Z 0) with 0.
    assert (0 <= inject_Z sh * p * s) as Hcost.
    { apply Qmult_le_0_compat; [apply Qmult_le_0_compat|]; auto.
      now apply Qlt_le_weak. }
    split; [|intros Hs; rewrite Hs; ring].
    apply Qle_trans with (m_cash b - inject_Z sh * p * s); [|lra].
    apply Qle_lteq. right. ring.
  - clear Buy. destruct (_ && _)%bool eqn:Sell;
      [|split; [rewrite Hflat; apply Qle_refl|intros _; exact Hflat]].
    apply andb_prop in Sell as [S0%Z.eqb_eq Pp%Z.ltb_lt]. rewrite S0.
    cbn [Z.eqb]. unfold_Q.
    unfold markToMarket. cbn [m_position m_cash m_signals set_position set_cash set_trades].
    cbn [Z.ltb Z.compare].
    assert (0 < inject_Z (m_position b)) as Hpos
        by (change 0 with (inject_Z 0); now rewrite <- Zlt_Qlt).
    subst held. fold p.
    assert (0 <= inject_Z (m_position b) * p * s) as Hcost.
    { apply Qmult_le_0_compat; [apply Qmult_le_0_compat|]; auto.
      now apply Qlt_le_weak. }
    split; [|intros Hs; rewrite Hs; ring].
    apply Qle_trans
      with (m_cash b + inject_Z (m_position b) * p - inject_Z (m_position b) * p * s);
      [|lra].
    apply Qle_lteq. right. ring.
Qed.

End TradeCost.

(** X13: without latency and with a slippage [s >= 0], a step never records
    more equity than the cash and the position held before the step are
    worth at the step's price: a trade costs its slippage and nothing else.
    With slippage 0 the two are equal. *)
Theorem a_trade_costs_only_its_slippage (b : Backtester Q) (i : nat) :
  (i < length (m_signals b))%nat ->
  m_latency b <= 0 ->
  0 <= m_slippage b ->
  0 <= price (nth i (m_signals b) noSignal) ->
  let before := self (loopAfter b i) in
  let held :=
    m_cash before
    + inject_Z (m_position before) * price (nth i (m_signals b) noSignal) in
  let recorded := equity (nth i (m_equity (runBacktest b)) noEquityPoint) in
  recorded <= held /\ (m_slippage b == 0 -> recorded == held).
Proof.
  intros Hi HL Hs Hp before held recorded. subst recorded.
  assert (m_signals b <> []) as NE
      by (destruct (m_signals b); [cbn in Hi; lia|easy]).
  rewrite (runBacktest_nonempty b NE), (equity_nth_loopAfter b i _ Hi).
  cbn [equity].
  destruct (loopAfter_params b i) as (_ & P2 & P3 & P4). fold before in P2, P3, P4.
  destruct (loopAfter_log_ok b i) as (_ & Hpos & _). fold before in Hpos.
  subst held. rewrite <- P4.
  unfold afterTransition. fold before.
  destruct (negb _).
  - rewrite <- P2.
    apply executeTrade_cost; rewrite ?P2, ?P3, ?P4; assumption.
  - split; [|intros _]; rewrite (markToMarket_flat before i Hpos);
      [apply Qle_refl|reflexivity].
Qed.

Lemma a_trade_costs_only_its_slippage_witness :
  let b := loaded 10000 (1 # 100) 0 riseAndFall in
  let before := self (loopAfter b 0) in
  let held := m_cash before + inject_Z (m_position before) * price (nth 0 (m_signals b) noSignal) in
  let recorded := equity (nth 0 (m_equity (runBacktest b)) noEquityPoint) in
  recorded <= held /\ (m_slippage b == 0 -> recorded == held).
Proof.
  apply (a_trade_costs_only_its_slippage (loaded 10000 (1 # 100) 0 riseAndFall) 0).
  - cbn. lia.
  - apply Qle_refl.
  - discriminate.
  - discriminate.
Defined.

(** ** Rising prices without friction *)

Lemma nondecreasing_nth (v : list Q) (j : nat) (d : Q) :
  nondecreasing v -> (S j < length v)%nat -> nth j v d <= nth (S j) v d.
Proof.
  revert j. induction v as [|x v IH]; intros j Hnd Hj; [cbn in Hj; lia|].
  destruct Hnd as [Hhead Hnd].
  destruct j as [|j].
  - destruct v as [|y v]; [cbn in Hj; lia|exact Hhead].
  - cbn in Hj. cbn [nth]. apply IH; [exact Hnd|lia].
Qed.

Section Frictionless.
Variable b : Backtester Q.
Hypothesis no_latency : m_latency b <= 0.
Hypothesis no_slippage : m_slippage b == 0.
Hypothesis prices_positive : Forall (fun r => 0 < price r) (m_signals b).
Hypothesis prices_rising : nondecreasing (map (@price Q) (m_signals b)).

Let priceAt (k : nat) : Q := price (nth k (m_signals b) noSignal).

Lemma priceAt_rising (k : nat) :
  (k < length (m_signals b))%nat -> priceAt (pred k) <= priceAt k.
Proof.
  intros Hk. destruct k as [|k]; [apply Qle_refl|]. cbn [pred].
  unfold priceAt.
  change (price noSignal) with (@price Q noSignal).
  rewrite <- !(map_nth (@price Q)).
  apply nondecreasing_nth; [exact prices_rising|now rewrite length_map].
Qed.

(** After [k] iterations the high-water mark is the last equity, the last
    equity is the holdings at the last price, and no drawdown was recorded. *)
Lemma loopAfter_frictionless (k : nat) :
  (k <= length (m_signals b))%nat ->
  let st := loopAfter b k in
  highWaterMark st == lastEquity st /\
  lastEquity st ==
    m_cash (self st) + inject_Z (m_position (self st)) * priceAt (pred k) /\
  Forall (fun d => d == 0) (m_drawdowns (self st)).
Proof.
  induction k as [|k IH]; intros Hk; cbn zeta.
  - cbn. split; [reflexivity|]. split; [ring|constructor].
  - destruct IH as (Hh & Hl & Hd); [lia|].
    set (st := loopAfter b k) in *.
    destruct (loopAfter_params b k) as (_ & P2 & P3 & P4). fold st in P2, P3, P4.
    destruct (loopAfter_log_ok b k) as (_ & Hpos & _). fold st in Hpos.
    assert (0 <= priceAt k) as Hp0.
    { apply Qlt_le_weak. rewrite Forall_forall in prices_positive.
      apply prices_positive, nth_In. lia. }
    assert (markToMarket (afterTransition st k) k ==
            m_cash (self st) + inject_Z (m_position (self st)) * priceAt k) as He.
    { unfold priceAt. rewrite <- P4. unfold afterTransition.
      destruct (negb _); [|now apply markToMarket_flat].
      apply executeTrade_cost; rewrite ?P2, ?P3, ?P4; auto.
      rewrite no_slippage. apply Qle_refl. }
    set (e := markToMarket (afterTransition st k) k) in *.
    assert (lastEquity st <= e) as Hrise.
    { rewrite Hl, He.
      assert (0 <= inject_Z (m_position (self st))) as Hq
          by (change 0 with (inject_Z 0); now rewrite <- Zle_Qle).
      pose proof (priceAt_rising k ltac:(lia)) as Hpk.
      apply Qplus_le_r.
      rewrite (Qmult_comm _ (priceAt (pred k))), (Qmult_comm _ (priceAt k)).
      now apply Qmult_le_compat_r. }
    rewrite loopAfter_S. fold st.
    destruct (loopBody_fields st k)
      as (_ & _ & _ & _ & F5 & F6 & _ & _ & F9 & _ & F11 & F12 & _).
    fold e in F9, F11, F12.
    assert (std_max (highWaterMark st) e == e) as Hmax.
    { destruct (std_max_Q_cases (highWaterMark st) e) as [[_ ->]|[H ->]];
        [reflexivity|].
      apply Qle_antisym; [now rewrite Hh|exact H]. }
    rewrite F5, F6, F9, F11, F12. cbn [pred].
    split; [exact Hmax|]. split.
    + destruct (loopAfter_log_ok b (S k)) as (_ & Hpos' & _).
      rewrite loopAfter_S in Hpos'. fold st in Hpos'. rewrite F6 in Hpos'.
      destruct (afterTransition_frame st k) as (_ & _ & _ & T4 & _).
      subst e. rewrite (markToMarket_flat _ k Hpos'). unfold priceAt.
      now rewrite T4, P4.
    + apply Forall_app. split; [exact Hd|].
      constructor; [|constructor]. unfold_Q. rewrite Hmax.
      unfold Qminus. rewrite Qplus_opp_r. unfold Qdiv. now rewrite !Qmult_0_l.
Qed.

End Frictionless.

(** X14: with a positive initial capital, without slippage and without
    latency, on positive prices that never fall, every drawdown a run
    records is 0, whatever the signals, and [getResults] reports a maximum
    drawdown of 0. *)
Theorem rising_prices_without_friction_no_drawdown (dsqrt : Q -> Q)
    (C L : Q) (rows : list (Signal Q)) :
  0 < C ->
  L <= 0 ->
  Forall (fun r => 0 < price r) rows ->
  nondecreasing (map (@price Q) rows) ->
  rows <> [] ->
  let run := runBacktest (loaded C 0 L rows) in
  Forall (fun d => d == 0) (m_drawdowns run) /\
  maxDrawdown (getResults dsqrt run) == 0.
Proof.
  intros HC HL Hpos Hrise NE run.
  assert (Forall (fun d => d == 0) (m_drawdowns run)) as Hd.
  { subst run. rewrite runBacktest_loaded_nonempty by assumption.
    apply (loopAfter_frictionless (loaded C 0 L rows)); auto.
    reflexivity. }
  split; [exact Hd|].
  assert (m_signals (loaded C 0 L rows) <> []) as NE' by exact NE.
  assert (m_equity run <> []) as NEq.
  { intros E. apply (f_equal (@length _)) in E. subst run.
    rewrite equity_length_runBacktest in E by assumption.
    destruct rows; [easy|discriminate]. }
  destruct (getResults_fields dsqrt run NEq) as (_ & _ & -> & _).
  pose proof (drawdowns_length_runBacktest _ NE') as Hlen. fold run in Hlen.
  destruct (m_drawdowns run) as [|x v].
  - destruct (m_equity run); [easy|discriminate].
  - cbn [max_element]. rewrite Forall_forall in Hd.
    apply Hd, fold_std_max_In.
Qed.

Lemma rising_prices_without_friction_no_drawdown_witness :
  let run := runBacktest (loaded 10000 0 0 (firstn 3 scenario)) in
  Forall (fun d => d == 0) (m_drawdowns run) /\
  maxDrawdown (getResults Qsqrt_floor run) == 0.
Proof.
  apply (rising_prices_without_friction_no_drawdown Qsqrt_floor 10000 0
           (firstn 3 scenario)).
  - reflexivity.
  - apply Qle_refl.
  - repeat constructor.
  - cbn. repeat split; discriminate.
  - discriminate.
Defined.

(** * The helper's prices *)

Lemma Qtrunc_nonneg (x : Q) : 0 <= x -> (0 <= Qtrunc x)%Z.
Proof.
  destruct x as [n d]. unfold Qtrunc, Qle. cbn. intros H.
  apply Z.quot_pos; lia.
Qed.

(** X15: at every record, as long as the index plus the latency steps stays
    below 2^64, [applyLatency] keeps the record's timestamp and signal, and
    the price the engine executes a transition at is the helper's buy price
    (signal 1) or sell price (any other signal) of the delayed record: the
    two differ in sizing only. *)
Theorem helper_prices_as_the_engine (b : Backtester Q) (i : nat) :
  (i < length (m_signals b))%nat ->
  (Z.of_nat i + Qtrunc (m_latency b * 10) < 2 ^ 64)%Z ->
  let this := mkTradeSimulator (m_slippage b) (m_latency b) in
  let record := nth i (m_signals b) noSignal in
  let delayed := applyLatency this record (m_signals b) i in
  timestamp delayed = timestamp record /\
  signal delayed = signal record /\
  executionPrice b i =
    if (signal record =? 1)%Z
    then calculateBuyPrice this (price delayed)
    else calculateSellPrice this (price delayed).
Proof.
  intros Hi Hwrap this record delayed.
  assert (timestamp delayed = timestamp record /\ signal delayed = signal record /\
          latencyPrice b i = price delayed) as (Ht & Hs & Hp).
  { subst delayed. unfold applyLatency, latencyPrice. cbn [ts_latency this].
    unfold_Q. unfold Qlt_bool. change (inject_Z 0) with 0.
    change (inject_Z 10) with 10.
    destruct (Qle_bool (m_latency b) 0) eqn:HL; cbn [orb negb]; [auto|].
    assert (match m_signals b with [] => true | _ :: _ => false end = false)
      as -> by (destruct (m_signals b); [cbn in Hi; lia|reflexivity]).
    cbn [orb]. fold record.
    destruct (Nat.leb_spec (length (m_signals b) - 1) i) as [Hlast|Hmid];
      cbn [timestamp signal price]; [|auto].
    repeat split.
    assert (0 <= m_latency b * 10) as Hnn.
    { assert (~ m_latency b <= 0) as Hpos
          by (rewrite <- Qle_bool_iff, HL; discriminate).
      apply Qnot_le_lt in Hpos. lra. }
    pose proof (Qtrunc_nonneg _ Hnn) as Hsteps.
    unfold size_add. rewrite Z.mod_small by lia.
    replace (Z.to_nat (Z.min (Z.of_nat i + Qtrunc (m_latency b * 10))
                         (Z.of_nat (length (m_signals b)) - 1))) with i by lia.
    reflexivity. }
  repeat split; auto.
  unfold executionPrice, calculateBuyPrice, calculateSellPrice.
  cbn [ts_slippage this]. fold record. now rewrite Hp.
Qed.

Lemma helper_prices_as_the_engine_witness :
  let b := loaded 10000 (1 # 100) (3 # 10) scenario in
  let this := mkTradeSimulator (m_slippage b) (m_latency b) in
  let record := nth 1 (m_signals b) noSignal in
  let delayed := applyLatency this record (m_signals b) 1 in
  timestamp delayed = timestamp record /\
  signal delayed = signal record /\
  executionPrice b 1 =
    if (signal record =? 1)%Z
    then calculateBuyPrice this (price delayed)
    else calculateSellPrice this (price delayed).
Proof.
  apply (helper_prices_as_the_engine (loaded 10000 (1 # 100) (3 # 10) scenario) 1).
  - cbn. lia.
  - reflexivity.
Defined.

(** X16: with a slippage [s >= 0] the helper's buy price is never below and
    its sell price never above a non-negative base price. *)
Theorem slippage_goes_against_the_trader (this : TradeSimulator Q)
    (basePrice : Q) :
  0 <= ts_slippage this ->
  0 <= basePrice ->
  calculateSellPrice this basePrice <= basePrice <= calculateBuyPrice this basePrice.
Proof.
  intros Hs Hb. unfold calculateSellPrice, calculateBuyPrice. unfold_Q.
  change (inject_Z 1) with 1.
  pose proof (Qmult_le_0_compat _ _ Hb Hs) as Hbs.
  split.
  - apply Qle_trans with (basePrice - basePrice * ts_slippage this); [|lra].
    apply Qle_lteq. right. ring.
  - apply Qle_trans with (basePrice + basePrice * ts_slippage this); [lra|].
    apply Qle_lteq. right. ring.
Qed.

Lemma slippage_goes_against_the_trader_witness :
  let this := mkTradeSimulator (1 # 100) 0 in
  calculateSellPrice this 100 <= 100 <= calculateBuyPrice this 100.
Proof.
  apply (slippage_goes_against_the_trader (mkTradeSimulator (1 # 100) 0) 100);
    discriminate.
Defined.

(** * The analyzer on a run *)

(** X17: on the equity path and the returns of a run, [calculateAllMetrics]
    reports the total return [getResults] reports, and its annualized
    return is always the power expression: after the emptiness check the
    guard [years > 0] cannot fail. *)
Theorem analyzer_on_a_run (dsqrt : Q -> Q) (dpow : Q -> Q -> Q)
    (b : Backtester Q) (riskFreeRate : Q) :
  m_signals b <> [] ->
  let run := runBacktest b in
  let stats :=
    calculateAllMetrics dsqrt dpow (m_equity run) (m_returns run)
      (m_initialCapital run) riskFreeRate in
  let years := inject_Z (Z.of_nat (length (m_returns run))) / 252 in
  ps_totalReturn stats = finalReturn (getResults dsqrt run) /\
  ps_annualizedReturn stats =
    (dpow (1 + ps_totalReturn stats / 100) (1 / years) - 1) * 100.
Proof.
  intros NE run stats years.
  assert (m_equity run <> []) as NEq.
  { intros E. apply (f_equal (@length _)) in E. subst run.
    rewrite equity_length_runBacktest in E by assumption.
    destruct (m_signals b); [easy|discriminate]. }
  assert (m_returns run <> []) as NEr.
  { intros E. apply (f_equal (@length _)) in E. subst run.
    rewrite returns_length_runBacktest in E by assumption.
    destruct (m_signals b); [easy|]. cbn in E. lia. }
  destruct (getResults_fields dsqrt run NEq) as (_ & -> & _).
  subst stats years. unfold calculateAllMetrics.
  destruct (m_equity run) as [|p ps] eqn:E; [easy|].
  destruct (m_returns run) as [|r rs] eqn:R; [easy|].
  rewrite <- E, <- R.
  assert (calculateTotalReturn (m_equity run) (m_initialCapital run) =
          ((equity (last (m_equity run) noEquityPoint) / m_initialCapital run
            - of_int 1) * of_int 100)%D) as Htotal.
  { unfold calculateTotalReturn. rewrite E. rewrite <- E.
    now destruct (last (m_equity run) noEquityPoint). }
  assert ((of_int 0 <? size_of (m_returns run) / of_int 252)%D = true) as Hyears.
  { unfold size_of. unfold_Q. apply Qlt_bool_iff. rewrite R.
    apply Qlt_shift_div_l; [reflexivity|].
    change (inject_Z 0 * inject_Z 252) with (inject_Z 0).
    rewrite <- Zlt_Qlt. cbn [length]. lia. }
  rewrite Hyears. cbn [ps_totalReturn ps_annualizedReturn].
  split; [exact Htotal|reflexivity].
Qed.

Lemma analyzer_on_a_run_witness :
  let run := runBacktest (loaded 10000 0 0 scenario) in
  let stats :=
    calculateAllMetrics Qsqrt_floor Qpow_floor (m_equity run)
      (m_returns run) (m_initialCapital run) 0 in
  let years := inject_Z (Z.of_nat (length (m_returns run))) / 252 in
  ps_totalReturn stats = finalReturn (getResults Qsqrt_floor run) /\
  ps_annualizedReturn stats =
    (Qpow_floor (1 + ps_totalReturn stats / 100) (1 / years) - 1) * 100.
Proof.
  apply (analyzer_on_a_run Qsqrt_floor Qpow_floor
           (loaded 10000 0 0 scenario) 0).
  discriminate.
Defined.

(** * Constant returns *)

Lemma Qsqrt_floor_zero (x : Q) : x == 0 -> Qsqrt_floor x == 0.
Proof.
  intros H. unfold Qsqrt_floor. rewrite H. reflexivity.
Qed.

Section ConstantReturns.
Variable r : Q.
Variable returns : list Q.
Hypothesis constant : Forall (fun x => x == r) returns.
Hypothesis some : returns <> [].

Let n : Q := inject_Z (Z.of_nat (length returns)).

Lemma size_positive : 0 < n.
Proof.
  unfold n. change 0 with (inject_Z 0). rewrite <- Zlt_Qlt.
  destruct returns; [easy|cbn [length]; lia].
Qed.

Lemma sum_of_constant (l : list Q) (a : Q) :
  Forall (fun x => x == r) l ->
  fold_left Qplus l a == a + inject_Z (Z.of_nat (length l)) * r.
Proof.
  intros H. revert a. induction H as [|x l Hx _ IH]; intros a.
  - cbn. ring.
  - cbn [fold_left length]. rewrite IH, Hx, Nat2Z.inj_succ, <- Z.add_1_r.
    rewrite inject_Z_plus. change (inject_Z 1) with 1. ring.
Qed.

Lemma squares_of_constant (l : list Q) (a a' : Q) :
  Forall (fun x => x == r) l ->
  let acc :=
    fold_left (fun (acc : Q * Q) x => (fst acc + x, snd acc + x * x)%D)
      l (a, a') in
  fst acc == a + inject_Z (Z.of_nat (length l)) * r /\
  snd acc == a' + inject_Z (Z.of_nat (length l)) * (r * r).
Proof.
  intros H. revert a a'. induction H as [|x l Hx _ IH]; intros a a'.
  - cbn. split; ring.
  - cbn [fold_left length fst snd]. unfold_Q.
    destruct (IH (a + x) (a' + x * x)) as [I1 I2]. cbn zeta in I1, I2.
    rewrite I1, I2, Hx, Nat2Z.inj_succ, <- Z.add_1_r, inject_Z_plus.
    change (inject_Z 1) with 1. split; ring.
Qed.

Lemma deviations_of_constant (mean : Q) (l : list Q) (a : Q) :
  mean == r ->
  Forall (fun x => x == r) l ->
  fold_left (fun acc ret => (acc + (ret - mean) * (ret - mean))%D) l a == a.
Proof.
  intros Hm H. revert a. induction H as [|x l Hx _ IH]; intros a.
  - reflexivity.
  - cbn [fold_left]. rewrite IH. unfold_Q. rewrite Hx, Hm. ring.
Qed.

Lemma mean_of_constant : accumulate returns / n == r.
Proof.
  unfold accumulate. unfold_Q. rewrite (sum_of_constant _ _ constant).
  fold n. pose proof size_positive. change (inject_Z 0) with 0. field. lra.
Qed.

End ConstantReturns.

Lemma stdDevOf_zero_returns (dsqrt : Q -> Q) (returns : list Q) :
  (forall x, x == 0 -> dsqrt x == 0) ->
  Forall (fun x => x == 0) returns ->
  returns <> [] ->
  (stdDevOf dsqrt returns =? of_int 0)%D = true.
Proof.
  intros Hsqrt Hzero NE.
  pose proof (size_positive 0 returns Hzero NE) as Hn.
  pose proof (mean_of_constant 0 returns Hzero NE) as Hmean.
  unfold_Q. apply Qeq_bool_iff. unfold stdDevOf, size_of. unfold_Q.
  apply Hsqrt.
  rewrite (deviations_of_constant 0 _ _ _ Hmean Hzero).
  change (inject_Z 0) with 0. field. lra.
Qed.

Lemma calculateSharpeRatio_zero_returns (dsqrt : Q -> Q) (returns : list Q)
    (riskFreeRate : Q) :
  (forall x, x == 0 -> dsqrt x == 0) ->
  Forall (fun x => x == 0) returns ->
  calculateSharpeRatio dsqrt returns riskFreeRate = 0.
Proof.
  intros Hsqrt Hzero. destruct returns as [|x l] eqn:E; [reflexivity|].
  unfold calculateSharpeRatio.
  rewrite (stdDevOf_zero_returns dsqrt (x :: l) Hsqrt Hzero); easy.
Qed.



(** X18: when every return the object holds is zero (a flat equity path),
    [getResults] reports a Sharpe ratio of 0: the variance it computes is 0,
    its square root is not above 0, and the guard [stdDev > 0] fails. *)
Theorem zero_returns_report_zero_sharpe (dsqrt : Q -> Q) (b : Backtester Q) :
  (forall x, x == 0 -> dsqrt x == 0) ->
  Forall (fun x => x == 0) (m_returns b) ->
  m_returns b <> [] ->
  m_equity b <> [] ->
  sharpeRatio (getResults dsqrt b) = 0.
Proof.
  intros Hsqrt Hzero NE NEq.
  pose proof (size_positive 0 (m_returns b) Hzero NE) as Hn.
  unfold getResults. destruct (m_equity b) as [|p ps]; [easy|].
  destruct (squares_of_constant 0 (m_returns b) (of_int 0) (of_int 0) Hzero)
    as [Hsum Hsq]. cbn zeta in Hsum, Hsq.
  destruct (fold_left _ (m_returns b) _) as [totalReturn totalRisk].
  cbn [fst snd] in Hsum, Hsq. cbn [sharpeRatio]. unfold_Q.
  set (n := inject_Z (Z.of_nat (length (m_returns b)))) in *.
  assert (Qlt_bool (inject_Z 0)
            (dsqrt (totalRisk / n - totalReturn / n * (totalReturn / n)))
          = false) as ->; [|reflexivity].
  apply Qlt_bool_false_iff.
  assert (totalRisk / n - totalReturn / n * (totalReturn / n) == 0) as Hvar.
  { rewrite Hsum, Hsq. change (inject_Z 0) with 0. field. lra. }
  rewrite (Hsqrt _ Hvar). apply Qle_refl.
Qed.

Lemma zero_returns_report_zero_sharpe_witness :
  let b := runBacktest (loaded 50 0 0 (heldBuySignal 3)) in
  sharpeRatio (getResults Qsqrt_floor b) = 0.
Proof.
  apply (zero_returns_report_zero_sharpe Qsqrt_floor
           (runBacktest (loaded 50 0 0 (heldBuySignal 3)))).
  - apply Qsqrt_floor_zero.
  - vm_compute. repeat constructor.
  - vm_compute. discriminate.
  - vm_compute. discriminate.
Defined.

(** * The helper's trade log *)

Section HelperLog.
Context {D : Type} {dbl : Double D}.
Variable this : TradeSimulator D.
Variable signals : list (Signal D).

Lemma applyLatency_keeps (original : Signal D) (i : nat) :
  timestamp (applyLatency this original signals i) = timestamp original /\
  signal (applyLatency this original signals i) = signal original.
Proof. unfold applyLatency. now destruct (_ || _)%bool. Qed.

(** What one iteration adds to the log. *)
Lemma simulateStep_log (st : SimLoop D) (i : nat) :
  (i < length signals)%nat ->
  trades (simulateStep this signals st i) = trades st \/
  exists t, trades (simulateStep this signals st i) = trades st ++ [t] /\
            helperTrade signals t.
Proof.
  intros Hi. unfold simulateStep.
  destruct (applyLatency_keeps (nth i signals noSignal) i) as [Hts _].
  assert (In (timestamp (applyLatency this (nth i signals noSignal) signals i))
             (map (@timestamp D) signals)) as Hin
      by (rewrite Hts; apply in_map, nth_In, Hi).
  destruct (negb _); [|now left].
  destruct (_ && _)%bool.
  - right. eexists. split; [reflexivity|]. unfold helperTrade. cbn. auto.
  - destruct (_ && _)%bool; [|now left].
    right. eexists. split; [reflexivity|]. unfold helperTrade. cbn. auto.
Qed.

Lemma simulateStep_ok (st : SimLoop D) (i : nat) :
  helper_ok st -> helper_ok (simulateStep this signals st i).
Proof.
  intros H. unfold simulateStep.
  destruct (negb _); [|exact H].
  destruct (_ && _)%bool eqn:Buy.
  - apply andb_prop in Buy as [_ P0%Z.eqb_eq].
    intros Hpos. cbn [trades currentPosition] in *.
    apply Forall_app in Hpos as [Hpos Hnew].
    inversion Hnew as [|? ? Hsh _]; subst. cbn [shares] in Hsh.
    destruct (H Hpos) as (A & P & E).
    rewrite alternates_snoc, length_app. cbn [length].
    rewrite Nat.add_1_r, Nat.even_succ, <- Nat.negb_even.
    unfold nextSide. rewrite E, P0. cbn.
    repeat split; auto; lia.
  - clear Buy. destruct (_ && _)%bool eqn:Sell; [|exact H].
    apply andb_prop in Sell as [_ Pp%Z.ltb_lt].
    intros Hpos. cbn [trades currentPosition] in *.
    apply Forall_app in Hpos as [Hpos _].
    destruct (H Hpos) as (A & P & E).
    rewrite alternates_snoc, length_app. cbn [length].
    rewrite Nat.add_1_r, Nat.even_succ, <- Nat.negb_even.
    unfold nextSide. rewrite E.
    destruct (Z.eqb_spec (currentPosition st) 0); [lia|]. cbn.
    repeat split; auto; lia.
Qed.

Lemma simulate_fold (idx : list nat) (st : SimLoop D) :
  Forall (fun i => (i < length signals)%nat) idx ->
  Forall (helperTrade signals) (trades st) ->
  helper_ok st ->
  let final := fold_left (simulateStep this signals) idx st in
  Forall (helperTrade signals) (trades final) /\
  helper_ok final /\
  (length (trades final) <= length (trades st) + length idx)%nat.
Proof.
  revert st. induction idx as [|i idx IH]; intros st Hidx Hlog Hok.
  - cbn. split; [exact Hlog|]. split; [exact Hok|lia].
  - inversion Hidx as [|? ? Hi Hrest]; subst. cbn [fold_left].
    pose proof (simulateStep_ok st i Hok) as Hok'.
    destruct (simulateStep_log st i Hi) as [E|(t & E & Ht)].
    + destruct (IH (simulateStep this signals st i) Hrest) as (I1 & I2 & I3);
        [now rewrite E|exact Hok'|].
      cbn zeta in *. rewrite E in I3.
      split; [exact I1|]. split; [exact I2|]. cbn [length]. lia.
    + destruct (IH (simulateStep this signals st i) Hrest) as (I1 & I2 & I3);
        [rewrite E; apply Forall_app; split; [exact Hlog|now constructor]
        |exact Hok'|].
      cbn zeta in *. rewrite E, length_app in I3. cbn [length] in *.
      split; [exact I1|]. split; [exact I2|lia].
Qed.

End HelperLog.

(** X19: the log [simulateTrades] returns holds at most one trade per
    record; each is a BUY or a SELL under the timestamp of a record, valued
    at its shares times its price; and the sides alternate from a BUY on as
    long as every trade has a positive number of shares (a BUY of 0 shares,
    which the helper records when one share costs more than 10000, is what
    can break the alternation). *)
Theorem helper_log_shape {D : Type} {dbl : Double D}
    (this : TradeSimulator D) (signals : list (Signal D)) :
  let log := simulateTrades this signals in
  (length log <= length signals)%nat /\
  Forall (helperTrade signals) log /\
  (Forall (fun t => (0 < shares t)%Z) log -> alternates true log).
Proof.
  intros log. subst log. unfold simulateTrades.
  destruct signals as [|r rows] eqn:E;
    [cbn; split; [lia|split; [constructor|auto]]|].
  rewrite <- E.
  destruct (simulate_fold this signals (seq 0 (length signals))
              (mkSimLoop [] 0 0)) as (H1 & H2 & H3).
  - apply Forall_forall. intros i Hi. apply in_seq in Hi. lia.
  - constructor.
  - intros _. cbn. split; [exact I|]. split; [lia|reflexivity].
  - cbn zeta in *. rewrite length_seq in H3. cbn [trades length] in H3.
    split; [lia|]. split; [exact H1|]. intros Hpos. now apply H2.
Qed.
